(** * Endpoint discovery (EDS) core of pilot/pkg/proxy/envoy/v2/eds.go

    A shallow embedding of the endpoint shard store, the cluster assignment
    builders (incremental and full path), the per-cluster client registry and
    the weight normalizer, followed by the properties stated about them.

    Conventions of the embedding:
    - Go [uint32] values are [Z] in the range [0, 2^32); every operation that
      wraps in Go is written with an explicit [uint32] reduction.
    - Go [float64] values are [spec_float] at precision 53, exponent bound
      1024 (IEEE 754 binary64), with the operations of [SpecFloat].
    - Go maps are [gmap]; a [range] over a map visits its entries in an
      unspecified order, which is a parameter ([rangeMap]) of the functions
      that contain such a loop.
    - Functions with side effects take the state they touch and return the
      new state; [time.Now()] is an argument. *)

From Stdlib Require Import ZArith Lia.
From Stdlib Require Import Floats.SpecFloat.
From stdpp Require Import gmap strings list fin_maps.

Local Open Scope Z_scope.

(** ** Machine arithmetic *)

Module Uint32.

Definition modulus : Z := 2 ^ 32.

(** Conversion to [uint32]: reduction modulo [2^32]. *)
Definition wrap (z : Z) : Z := z mod modulus.

Definition add (a b : Z) : Z := wrap (a + b).
Definition mul (a b : Z) : Z := wrap (a * b).

Definition in_range (z : Z) : Prop := 0 <= z < modulus.

End Uint32.

Module Float64.

Definition prec : Z := 53.
Definition emax : Z := 1024.

(** [float64(x)] for an integer [x]. *)
Definition of_Z (z : Z) : spec_float := binary_normalize prec emax z 0 false.

(** [x / y] on [float64]. *)
Definition div (x y : spec_float) : spec_float := SFdiv prec emax x y.

(** The integer [math.Ceil] yields, for a finite argument. *)
Definition ceil (f : spec_float) : Z :=
  match f with
  | S754_finite s m e =>
      let v := if s then Z.neg m else Z.pos m in
      match e with
      | Z.neg p => - ((- v) / 2 ^ Z.pos p)
      | _ => v * 2 ^ e
      end
  | _ => 0
  end.

(** [uint32(math.Ceil(f))]. *)
Definition ceil_uint32 (f : spec_float) : Z := Uint32.wrap (ceil f).

End Float64.

(** Ceiling of the exact quotient [a / b], for [b > 0]. *)
Definition ceil_div (a b : Z) : Z := (a + b - 1) / b.

(** ** Wire types (envoy api v2) *)

Inductive AddressFamily :=
  | AddressFamilyTCP
  | AddressFamilyUnix
  | AddressFamilyOther (n : Z).

(** [core.Address]: a socket address, a pipe, or the zero value. *)
Inductive Address :=
  | Address_SocketAddress (address : string) (PortValue : Z)
  | Address_Pipe (Path : string)
  | Address_unset.

(** [types.Struct] restricted to string values: field name to string. *)
Abbreviation Struct := (gmap string string).

(** [core.Metadata]: [FilterMetadata], filter name to struct. *)
Abbreviation Metadata := (gmap string Struct).

Record LbEndpoint := {
  Endpoint_Address : Address;
  (** [nil] when the endpoint carries no metadata. *)
  Endpoint_Metadata : option Metadata
}.

Record Locality := { Region : string; Zone : string; SubZone : string }.

Record LocalityLbEndpoints := {
  LLE_Locality : option Locality;
  LbEndpoints : list LbEndpoint;
  (** [*types.UInt32Value]: [None] is the nil pointer. *)
  LoadBalancingWeight : option Z
}.

(** [GetLoadBalancingWeight().GetValue()]: 0 through a nil pointer. *)
Definition GetWeight (g : LocalityLbEndpoints) : Z :=
  default 0 (LoadBalancingWeight g).

Definition set_weight (g : LocalityLbEndpoints) (w : Z) : LocalityLbEndpoints :=
  {| LLE_Locality := LLE_Locality g;
     LbEndpoints := LbEndpoints g;
     LoadBalancingWeight := Some w |}.

Record ClusterLoadAssignment := {
  ClusterName : string;
  Endpoints : list LocalityLbEndpoints
}.

(** ** Weight normalizer *)

Definition maxLoadBalancingWeight : Z := 128.

(** First loop of [normalizeLoadBalancingWeight]: the [uint32] sum. *)
Definition totalLbEndpointsNum (endpoints : list LocalityLbEndpoints) : Z :=
  fold_left (fun acc g => Uint32.add acc (GetWeight g)) endpoints 0.

(** The weight assigned in the second loop:
    [uint32(math.Ceil(float64(raw * 128) / float64(total)))], where the
    product is a [uint32] product. *)
Definition normalizedWeight (total raw : Z) : Z :=
  Float64.ceil_uint32
    (Float64.div (Float64.of_Z (Uint32.mul raw maxLoadBalancingWeight))
                 (Float64.of_Z total)).

(** Second loop: [out] starts as a slice of [len(endpoints)] zero values and
    [out[i]] receives the copy of [endpoints[i]] with its weight replaced. *)
Definition emptyLocalityLbEndpoints : LocalityLbEndpoints :=
  {| LLE_Locality := None; LbEndpoints := []; LoadBalancingWeight := None |}.

Fixpoint normalizeLoop (total : Z) (i : nat) (rest : list LocalityLbEndpoints)
    (out : list LocalityLbEndpoints) : list LocalityLbEndpoints :=
  match rest with
  | [] => out
  | localityLbEndpoint :: rest' =>
      let weight := normalizedWeight total (GetWeight localityLbEndpoint) in
      normalizeLoop total (S i) rest'
        (<[i := set_weight localityLbEndpoint weight]> out)
  end.

Definition normalizeLoadBalancingWeight (endpoints : list LocalityLbEndpoints)
    : list LocalityLbEndpoints :=
  let total := totalLbEndpointsNum endpoints in
  if total =? 0 then endpoints
  else normalizeLoop total 0 endpoints
         (replicate (length endpoints) emptyLocalityLbEndpoints).

(** The same function with the quotient taken exactly (no [uint32] wrap of
    the sum or of the product, exact ceiling): what the formula
    [ceil(raw * 128 / T)] denotes. *)
Definition normalizeExact (endpoints : list LocalityLbEndpoints)
    : list LocalityLbEndpoints :=
  let T := fold_right Z.add 0 (map GetWeight endpoints) in
  if T =? 0 then endpoints
  else map (fun g => set_weight g (ceil_div (GetWeight g * 128) T)) endpoints.

Definition group (w : Z) : LocalityLbEndpoints :=
  {| LLE_Locality := None; LbEndpoints := []; LoadBalancingWeight := Some w |}.

(** ** Source model (pilot/pkg/model), as far as eds.go reads it *)

Abbreviation Labels := (gmap string string).
Abbreviation Error := string.

Record NetworkEndpoint := {
  NE_Family : AddressFamily;
  NE_Address : string;
  NE_Port : Z;
  NE_UID : string;
  NE_Network : string
}.

Record ServiceInstance := {
  SI_Endpoint : NetworkEndpoint;
  SI_Labels : Labels;
  SI_ServiceAccount : string
}.

Record IstioEndpoint := {
  IE_Labels : Labels;
  IE_Family : AddressFamily;
  IE_Address : string;
  EndpointPort : Z;
  ServicePortName : string;
  IE_UID : string;
  (** The cached wire endpoint; [None] until first materialized. *)
  EnvoyEndpoint : option LbEndpoint;
  IE_Network : string;
  IE_ServiceAccount : string
}.

Inductive Protocol := ProtocolUDP | ProtocolOther (name : string).

Record Port := { Port_Name : string; Port_Port : Z; Port_Protocol : Protocol }.

Abbreviation PortList := (list Port).

Record Service := { Hostname : string; Ports : PortList }.

Inductive TrafficDirection :=
  | TrafficDirectionInbound
  | TrafficDirectionOutbound
  | TrafficDirectionOther (s : string).

(** The parts of [model.PushContext] that eds.go reads. *)
Record PushContext := {
  ServicePort2Name : gmap string PortList;
  Services : list Service
}.

(** Modelled from the spec: [PortList.GetByPort] (pilot/pkg/model), the
    lookup of the port with a given number in a service's port list. *)
Definition GetByPort (ports : PortList) (num : Z) : option Port :=
  List.find (fun p => bool_decide (Port_Port p = num)) ports.

(** Modelled from the spec: [HasSubsetOf] (pilot/pkg/model), the label
    selector test: an endpoint matches iff its labels contain every key of
    the selector with an equal value. *)
Definition HasSubsetOf (selector that : Labels) : bool :=
  bool_decide (map_Forall (fun k v => that !! k = Some v) selector).

(** ** Conversion to wire endpoints *)

Definition buildEnvoyLbEndpoint (UID : string) (family : AddressFamily)
    (address : string) (port : Z) (network : string) : LbEndpoint :=
  let addr :=
    match family with
    | AddressFamilyTCP => Address_SocketAddress address port
    | AddressFamilyUnix => Address_Pipe address
    | AddressFamilyOther _ => Address_unset
    end in
  {| Endpoint_Address := addr;
     Endpoint_Metadata :=
       if bool_decide (UID <> "") then
         Some {[ "istio" := {[ "uid" := UID; "network" := network ]} ]}
       else None |}.

(** [ep.Metadata.FilterMetadata["istio"].Fields[k] = v]. The statement is
    only reached with the metadata allocated. *)
Definition setIstioField (md : option Metadata) (k v : string) : option Metadata :=
  alter (insert k v) "istio" <$> md.

(** The string field [k] of the struct stored under the key ["istio"]. *)
Definition istioField (ep : LbEndpoint) (k : string) : option string :=
  match Endpoint_Metadata ep with
  | Some md => match md !! "istio" with Some fields => fields !! k | None => None end
  | None => None
  end.

Inductive result (A : Type) :=
  | Ok (a : A)
  | Err (e : Error).
Arguments Ok {A} a.
Arguments Err {A} e.

(** ** Endpoint shard store *)

Record EndpointShard := {
  Shard : string;
  Entries : list IstioEndpoint
}.

Record EndpointShardsByService := {
  Shards : gmap string EndpointShard;
  (** [map[string]bool] used as a set: only key presence is read. *)
  ServiceAccounts : gset string
}.

(** The fields of [DiscoveryServer] touched by the shard store. The values of
    [edsUpdates] are the very pointers stored in [EndpointShardsByService]
    under the same key, so the map is represented by its key set.
    [ConfigUpdates] records the calls [s.ConfigUpdate(full)], oldest first. *)
Record DiscoveryServer := {
  s_EndpointShardsByService : gmap string EndpointShardsByService;
  edsUpdates : gset string;
  ConfigUpdates : list bool
}.

(** The loop over [entries] in [edsUpdate]: appends each entry to the new
    shard and raises [requireFull] on a service account not yet recorded. *)
Definition edsUpdateEntry (accounts : gset string) (internal : bool)
    (acc : list IstioEndpoint * bool) (e : IstioEndpoint)
    : list IstioEndpoint * bool :=
  let '(ceEntries, requireFull) := acc in
  (ceEntries ++ [e],
   if bool_decide (IE_ServiceAccount e <> "") then
     if negb (bool_decide (IE_ServiceAccount e ∈ accounts)) && negb internal
     then true else requireFull
   else requireFull).

Definition edsUpdate (s : DiscoveryServer) (shard serviceName : string)
    (entries : list IstioEndpoint) (internal : bool) : DiscoveryServer :=
  let found := s_EndpointShardsByService s !! serviceName in
  let ep :=
    match found with
    | Some ep => ep
    | None => {| Shards := ∅; ServiceAccounts := ∅ |}
    end in
  let requireFull0 :=
    match found with
    | Some _ => false
    | None => negb internal
    end in
  let '(ceEntries, requireFull) :=
    fold_left (edsUpdateEntry (ServiceAccounts ep) internal) entries
              ([], requireFull0) in
  let ce := {| Shard := shard; Entries := ceEntries |} in
  let ep' := {| Shards := <[shard := ce]> (Shards ep);
                ServiceAccounts := ServiceAccounts ep |} in
  {| s_EndpointShardsByService :=
       <[serviceName := ep']> (s_EndpointShardsByService s);
     edsUpdates := {[serviceName]} ∪ edsUpdates s;
     ConfigUpdates :=
       ConfigUpdates s ++ [if requireFull then true else false] |}.

Definition EDSUpdate (s : DiscoveryServer) (shard serviceName : string)
    (entries : list IstioEndpoint) : DiscoveryServer * option Error :=
  (edsUpdate s shard serviceName entries false, None).

(** A shard update as a value, and the run of a sequence of them. *)
Record ShardUpdate := {
  su_shard : string;
  su_service : string;
  su_entries : list IstioEndpoint;
  su_internal : bool
}.

Definition applyUpdate (s : DiscoveryServer) (u : ShardUpdate) : DiscoveryServer :=
  edsUpdate s (su_shard u) (su_service u) (su_entries u) (su_internal u).

Definition runUpdates (s : DiscoveryServer) (us : list ShardUpdate) : DiscoveryServer :=
  fold_left applyUpdate us s.

(** The non-empty service accounts of a list of endpoints, and their union
    over all shards of a service. *)
Definition accountsOfEntries (es : list IstioEndpoint) : gset string :=
  list_to_set (List.filter (fun a => negb (String.eqb a ""))
                           (map IE_ServiceAccount es)).

Definition accountsOfShards (ep : EndpointShardsByService) : gset string :=
  map_fold (fun _ sh acc => accountsOfEntries (Entries sh) ∪ acc) ∅ (Shards ep).

(** ** Cluster registry *)

(** A connection handle ([*XdsConnection]), identified by its address. *)
Abbreviation XdsConnection := nat.

Record EdsCluster := {
  LoadAssignment : option ClusterLoadAssignment;
  FirstUse : Z;
  EdsClients : gmap string XdsConnection;
  (** [None] is the zero [time.Time]. *)
  NonEmptyTime : option Z
}.

Definition getEdsCluster (edsClusters : gmap string EdsCluster)
    (clusterName : string) : option EdsCluster :=
  edsClusters !! clusterName.

Definition getOrAddEdsCluster (edsClusters : gmap string EdsCluster)
    (clusterName : string) (now : Z) : gmap string EdsCluster * EdsCluster :=
  match edsClusters !! clusterName with
  | Some c => (edsClusters, c)
  | None =>
      let c := {| LoadAssignment := None; FirstUse := now;
                  EdsClients := ∅; NonEmptyTime := None |} in
      (<[clusterName := c]> edsClusters, c)
  end.

Definition set_clients (c : EdsCluster) (cl : gmap string XdsConnection) : EdsCluster :=
  {| LoadAssignment := LoadAssignment c; FirstUse := FirstUse c;
     EdsClients := cl; NonEmptyTime := NonEmptyTime c |}.

Definition addEdsCon (edsClusters : gmap string EdsCluster)
    (clusterName node : string) (connection : XdsConnection) (now : Z)
    : gmap string EdsCluster :=
  let '(clusters, c) := getOrAddEdsCluster edsClusters clusterName now in
  <[clusterName := set_clients c (<[node := connection]> (EdsClients c))]> clusters.

Definition removeEdsCon (edsClusters : gmap string EdsCluster)
    (clusterName node : string) (connection : XdsConnection)
    : gmap string EdsCluster :=
  match getEdsCluster edsClusters clusterName with
  | None => edsClusters
  | Some c =>
      match EdsClients c !! node with
      | None => edsClusters
      | Some oldcon =>
          if bool_decide (oldcon <> connection) then edsClusters
          else
            let clients := delete node (EdsClients c) in
            if bool_decide (size clients = 0%nat) then delete clusterName edsClusters
            else <[clusterName := set_clients c clients]> edsClusters
      end
  end.

(** The connection recorded for [node] in cluster [clusterName], if any. *)
Definition clientOf (edsClusters : gmap string EdsCluster)
    (clusterName node : string) : option XdsConnection :=
  match edsClusters !! clusterName with
  | Some c => EdsClients c !! node
  | None => None
  end.

(** ** Assignment builders *)

(** What the builders change outside the cluster entry: the push context's
    status list ([push.Add(model.ProxyStatusClusterNoInstances, ...)]), the
    [edsInstances] gauge, the [totalXDSInternalErrors] counter, and the log
    of the queries sent to the service registry. *)
Record World := {
  clusterNoInstances : list string;
  edsInstances : gmap string Z;
  totalXDSInternalErrors : Z;
  registryQueries : list (string * Z * Labels)
}.

Definition addNoInstances (w : World) (clusterName : string) : World :=
  {| clusterNoInstances := clusterNoInstances w ++ [clusterName];
     edsInstances := edsInstances w;
     totalXDSInternalErrors := totalXDSInternalErrors w;
     registryQueries := registryQueries w |}.

Definition setEdsInstances (w : World) (clusterName : string) (n : Z) : World :=
  {| clusterNoInstances := clusterNoInstances w;
     edsInstances := <[clusterName := n]> (edsInstances w);
     totalXDSInternalErrors := totalXDSInternalErrors w;
     registryQueries := registryQueries w |}.

Definition addInternalErrors (w : World) (n : Z) : World :=
  {| clusterNoInstances := clusterNoInstances w;
     edsInstances := edsInstances w;
     totalXDSInternalErrors := totalXDSInternalErrors w + n;
     registryQueries := registryQueries w |}.

Definition logQuery (w : World) (q : string * Z * Labels) : World :=
  {| clusterNoInstances := clusterNoInstances w;
     edsInstances := edsInstances w;
     totalXDSInternalErrors := totalXDSInternalErrors w;
     registryQueries := registryQueries w ++ [q] |}.

(** [edsCluster.LoadAssignment = ...] followed by the [NonEmptyTime] stamp. *)
Definition installAssignment (edsCluster : EdsCluster) (clusterName : string)
    (locEps : list LocalityLbEndpoints) (now : Z) : EdsCluster :=
  {| LoadAssignment := Some {| ClusterName := clusterName; Endpoints := locEps |};
     FirstUse := FirstUse edsCluster;
     EdsClients := EdsClients edsCluster;
     NonEmptyTime :=
       if (0 <? length locEps)%nat && bool_decide (NonEmptyTime edsCluster = None)
       then Some now else NonEmptyTime edsCluster |}.

Definition zoneLocality (zone : string) : Locality :=
  {| Region := ""; Zone := zone; SubZone := "" |}.

(** [localityEpMap[locality]], created on first use, with one more endpoint. *)
Definition appendToLocality (localityEpMap : gmap string LocalityLbEndpoints)
    (locality : string) (ep : LbEndpoint) : gmap string LocalityLbEndpoints :=
  let locLbEps :=
    match localityEpMap !! locality with
    | Some g => g
    | None => {| LLE_Locality := Some (zoneLocality locality);
                 LbEndpoints := []; LoadBalancingWeight := None |}
    end in
  <[locality := {| LLE_Locality := LLE_Locality locLbEps;
                   LbEndpoints := LbEndpoints locLbEps ++ [ep];
                   LoadBalancingWeight := LoadBalancingWeight locLbEps |}]>
    localityEpMap.

(** [LoadBalancingWeight = uint32(len(LbEndpoints))]. *)
Definition weightByCount (g : LocalityLbEndpoints) : LocalityLbEndpoints :=
  set_weight g (Uint32.wrap (Z.of_nat (length (LbEndpoints g)))).

Definition emptyWorld : World :=
  {| clusterNoInstances := []; edsInstances := ∅;
     totalXDSInternalErrors := 0; registryQueries := [] |}.

Definition freshCluster (now : Z) : EdsCluster :=
  {| LoadAssignment := None; FirstUse := now; EdsClients := ∅;
     NonEmptyTime := None |}.

(** ** Definitions for the further properties *)

(** The second half of [binary_round_aux]: the second shift and the final
    classification, on a mantissa that has already been rounded. *)
Definition round_tail (q1 e : Z) : spec_float :=
  let '(mrs, e') := shr_fexp 53 1024 q1 e loc_Exact in
  match shr_m mrs with
  | Z0 => S754_zero false
  | Zpos m => if e' <=? 1024 - 53 then S754_finite false m e' else S754_infinity false
  | _ => S754_nan
  end.


(** The group written to [out[i]] by the second loop of the normalizer. *)
Definition normalizeGroup (total : Z) (g : LocalityLbEndpoints) : LocalityLbEndpoints :=
  set_weight g (normalizedWeight total (GetWeight g)).

(** The exact sum of the raw weights. *)
Definition sumWeights (endpoints : list LocalityLbEndpoints) : Z :=
  fold_right Z.add 0 (map GetWeight endpoints).

(** Raw weights for which neither the sum nor a product [raw * 128] wraps. *)
Definition noWrap (endpoints : list LocalityLbEndpoints) : Prop :=
  Forall (fun g => 0 <= GetWeight g < 2 ^ 25) endpoints
  /\ sumWeights endpoints < Uint32.modulus.

(** Every cluster entry of the registry has at least one subscriber. *)
Definition watched (edsClusters : gmap string EdsCluster) : Prop :=
  forall clusterName c, edsClusters !! clusterName = Some c -> EdsClients c <> ∅.

(** The entries registered for one shard of one service, if any. *)
Definition shardEntries (s : DiscoveryServer) (serviceName shard : string)
    : option (list IstioEndpoint) :=
  match s_EndpointShardsByService s !! serviceName with
  | Some ep => Entries <$> (Shards ep !! shard)
  | None => None
  end.

(** The update addresses the given shard of the given service. *)
Definition updatesShard (serviceName shard : string) (u : ShardUpdate) : bool :=
  bool_decide (su_service u = serviceName) && bool_decide (su_shard u = shard).

(** What a build leaves of a cluster entry: the subscribers and the time of
    first use stay; a recorded [NonEmptyTime] stays; an unrecorded one stays
    so or becomes [now], the latter only with a non-empty assignment. *)
Definition keepsEntry (now : Z) (c c' : EdsCluster) : Prop :=
  EdsClients c' = EdsClients c
  /\ FirstUse c' = FirstUse c
  /\ match NonEmptyTime c with
     | Some t => NonEmptyTime c' = Some t
     | None =>
         NonEmptyTime c' = None
         \/ (NonEmptyTime c' = Some now
             /\ exists a, LoadAssignment c' = Some a /\ Endpoints a <> [])
     end.

(** ** Workloads *)

(** [Workload]: labels and annotations, either of which may be a nil map. *)
Record Workload := {
  W_Labels : option (gmap string string);
  W_Annotations : option (gmap string string)
}.

(** The fields of [DiscoveryServer] touched by [WorkloadUpdate]:
    [WorkloadsByID] and the calls of [ConfigUpdate], oldest first. *)
Record WorkloadStore := {
  WorkloadsByID : gmap string Workload;
  wl_ConfigUpdates : list bool
}.

Definition WorkloadUpdate (st : WorkloadStore) (id : string)
    (labels annotations : option (gmap string string)) : WorkloadStore :=
  match labels with
  | None =>
      {| WorkloadsByID := delete id (WorkloadsByID st);
         wl_ConfigUpdates := wl_ConfigUpdates st |}
  | Some _ =>
      match WorkloadsByID st !! id with
      | None =>
          {| WorkloadsByID :=
               <[id := {| W_Labels := labels; W_Annotations := annotations |}]>
                 (WorkloadsByID st);
             wl_ConfigUpdates := wl_ConfigUpdates st |}
      | Some w =>
          (* reflect.DeepEqual(w.Labels, labels) *)
          if bool_decide (W_Labels w = labels) then st
          else
            {| WorkloadsByID :=
                 <[id := {| W_Labels := labels;
                            W_Annotations := W_Annotations w |}]>
                   (WorkloadsByID st);
               wl_ConfigUpdates := wl_ConfigUpdates st ++ [true] |}
      end
  end.

(** ** Registry reconciler *)

(** One member of the aggregate service discovery: its cluster id and its
    [InstancesByPort] query. *)
Record Registry := {
  ClusterID : string;
  Registry_InstancesByPort : string -> Z -> Labels -> result (list ServiceInstance)
}.

(** The [model.IstioEndpoint] built from an instance returned for a port. *)
Definition toIstioEndpoint (port : Port) (ep : ServiceInstance) : IstioEndpoint :=
  {| IE_Labels := SI_Labels ep;
     IE_Family := NE_Family (SI_Endpoint ep);
     IE_Address := NE_Address (SI_Endpoint ep);
     EndpointPort := Uint32.wrap (NE_Port (SI_Endpoint ep));
     ServicePortName := Port_Name port;
     IE_UID := NE_UID (SI_Endpoint ep);
     EnvoyEndpoint := None;
     IE_Network := NE_Network (SI_Endpoint ep);
     IE_ServiceAccount := SI_ServiceAccount ep |}.

(** Innermost loop of [updateServiceShards], over the instances of a port:
    the entries collected for the service and the map [svc2account]. *)
Definition sweepInstance (hostname : string) (port : Port)
    (acc : list IstioEndpoint * gmap string (gset string)) (ep : ServiceInstance)
    : list IstioEndpoint * gmap string (gset string) :=
  let '(entries, svc2account) := acc in
  (entries ++ [toIstioEndpoint port ep],
   if bool_decide (SI_ServiceAccount ep <> "") then
     <[hostname := {[ SI_ServiceAccount ep ]} ∪ default ∅ (svc2account !! hostname)]>
       svc2account
   else svc2account).

(** The loop over the ports of a service: UDP ports are skipped, a failing
    query ends the reconciliation. The label filter of the query is empty. *)
Fixpoint sweepPorts (registry : Registry) (hostname : string) (ports : list Port)
    (acc : list IstioEndpoint * gmap string (gset string))
    : result (list IstioEndpoint * gmap string (gset string)) :=
  match ports with
  | [] => Ok acc
  | port :: ports' =>
      match Port_Protocol port with
      | ProtocolUDP => sweepPorts registry hostname ports' acc
      | ProtocolOther _ =>
          match Registry_InstancesByPort registry hostname (Port_Port port) ∅ with
          | Err err => Err err
          | Ok endpoints =>
              sweepPorts registry hostname ports'
                (fold_left (sweepInstance hostname port) endpoints acc)
          end
      end
  end.

(** The loop over the services, for one registry: each service's entries go
    to the shard of the registry through an internal [edsUpdate]. *)
Fixpoint sweepServices (registry : Registry) (svcs : list Service)
    (s : DiscoveryServer) (svc2account : gmap string (gset string))
    : DiscoveryServer * gmap string (gset string) * option Error :=
  match svcs with
  | [] => (s, svc2account, None)
  | svc :: svcs' =>
      match sweepPorts registry (Hostname svc) (Ports svc) ([], svc2account) with
      | Err err => (s, svc2account, Some err)
      | Ok (entries, svc2account') =>
          sweepServices registry svcs'
            (edsUpdate s (ClusterID registry) (Hostname svc) entries true)
            svc2account'
      end
  end.

Fixpoint sweepRegistries (registries : list Registry) (svcs : list Service)
    (s : DiscoveryServer) (svc2account : gmap string (gset string))
    : DiscoveryServer * gmap string (gset string) * option Error :=
  match registries with
  | [] => (s, svc2account, None)
  | registry :: registries' =>
      match sweepServices registry svcs s svc2account with
      | (s', svc2account', Some err) => (s', svc2account', Some err)
      | (s', svc2account', None) =>
          sweepRegistries registries' svcs s' svc2account'
      end
  end.

(** [ep.ServiceAccounts = v] for the record of service [k]; every key of
    [svc2account] has a record by the time the statement runs. *)
Definition setServiceAccounts (s : DiscoveryServer) (kv : string * gset string)
    : DiscoveryServer :=
  {| s_EndpointShardsByService :=
       alter (fun ep => {| Shards := Shards ep; ServiceAccounts := snd kv |})
             (fst kv) (s_EndpointShardsByService s);
     edsUpdates := edsUpdates s;
     ConfigUpdates := ConfigUpdates s |}.

(** The non-empty service accounts among the instances of a query answer,
    and their union over the ports, services and registries of a sweep. *)
Definition instanceAccounts (eps : list ServiceInstance) : gset string :=
  list_to_set (List.filter (fun a => negb (String.eqb a ""))
                           (map SI_ServiceAccount eps)).

Definition portAccounts (registry : Registry) (hostname : string) (port : Port)
    : gset string :=
  match Port_Protocol port with
  | ProtocolUDP => ∅
  | ProtocolOther _ =>
      match Registry_InstancesByPort registry hostname (Port_Port port) ∅ with
      | Ok eps => instanceAccounts eps
      | Err _ => ∅
      end
  end.

Definition serviceSweptAccounts (registry : Registry) (hostname : string)
    (svc : Service) : gset string :=
  if decide (Hostname svc = hostname)
  then ⋃ (map (portAccounts registry hostname) (Ports svc)) else ∅.

Definition sweptAccounts (registries : list Registry) (svcs : list Service)
    (hostname : string) : gset string :=
  ⋃ (map (fun registry => ⋃ (map (serviceSweptAccounts registry hostname) svcs))
         registries).

(** The set recorded for a host in [svc2account]; empty when there is none. *)
Definition accountsIn (svc2account : gmap string (gset string)) (hostname : string)
    : gset string :=
  default ∅ (svc2account !! hostname).

(** Every set stored in [svc2account] has an element. *)
Definition nonEmptySets (m : gmap string (gset string)) : Prop :=
  forall k v, m !! k = Some v -> v <> ∅.

(** ** Pushes *)

(** [xdsapi.DiscoveryResponse]; a resource is kept as the assignment that
    [types.MarshalAny] serializes. *)
Record DiscoveryResponse := {
  TypeUrl : string;
  VersionInfo : string;
  Nonce : string;
  Resources : list ClusterLoadAssignment
}.

Definition set_assignment (c : EdsCluster) (l : ClusterLoadAssignment) : EdsCluster :=
  {| LoadAssignment := Some l; FirstUse := FirstUse c;
     EdsClients := EdsClients c; NonEmptyTime := NonEmptyTime c |}.

(** [l.Endpoints = normalizeLoadBalancingWeight(l.Endpoints)]. *)
Definition normalizeAssignment (l : ClusterLoadAssignment) : ClusterLoadAssignment :=
  {| ClusterName := ClusterName l;
     Endpoints := normalizeLoadBalancingWeight (Endpoints l) |}.

(** Modelled from the spec: [applyEndpointsFilterFuncs] (not in eds.go), the
    registered endpoint filters applied in order, each to the output of the
    one before, for one connection. *)
Definition applyEndpointsFilterFuncs
    (filters : list (list LocalityLbEndpoints -> XdsConnection -> list LocalityLbEndpoints))
    (endpoints : list LocalityLbEndpoints) (con : XdsConnection)
    : list LocalityLbEndpoints :=
  fold_left (fun eps filter => filter eps con) filters endpoints.

(** [pushes.With(prometheus.Labels{"type": t}).Add(1)]. *)
Definition countPush (pushes : gmap string Z) (t : string) : gmap string Z :=
  <[t := default 0 (pushes !! t) + 1]> pushes.

(** ** Connection identifiers *)

From Stdlib Require Import Ascii.
From stdpp Require Import pretty.

Local Open Scope Z_scope.

Module Int64.

(** Conversion to [int64]: two's complement reduction to [-2^63, 2^63). *)
Definition wrap (z : Z) : Z := (z + 2 ^ 63) mod 2 ^ 64 - 2 ^ 63.

End Int64.

(** [connectionID]: the atomic increment of the package counter
    [connectionNumber], then the node name, a dash and the decimal form of the
    new counter value ([strconv.FormatInt(id, 10)] is [pretty] on [Z]: an
    optional minus sign and the digits without leading zeros).  The counter is
    passed in and returned. *)
Definition connectionID (connectionNumber : Z) (node : string) : string * Z :=
  let id := Int64.wrap (connectionNumber + 1) in
  (node +:+ "-" +:+ pretty id, id).

(** The identifiers handed out by successive calls, one per node name. *)
Fixpoint connectionIDs (connectionNumber : Z) (nodes : list string) : list string :=
  match nodes with
  | [] => []
  | node :: rest =>
      let '(id, connectionNumber') := connectionID connectionNumber node in
      id :: connectionIDs connectionNumber' rest
  end.

(** A string without the separator character. *)
Fixpoint dashFree (s : string) : bool :=
  match s with
  | EmptyString => true
  | String c s' => negb (Ascii.eqb c "-"%char) && dashFree s'
  end.

(** ** Values used in the scenarios *)

Definition endpointWithAccount (account : string) : IstioEndpoint :=
  {| IE_Labels := ∅; IE_Family := AddressFamilyTCP; IE_Address := "10.0.0.1";
     EndpointPort := 80; ServicePortName := "http"; IE_UID := "";
     EnvoyEndpoint := None; IE_Network := ""; IE_ServiceAccount := account |}.

(** A server that knows the service ["svc.ns"] with accounts {a} and no
    shard yet. *)
Definition serverWithAccountA : DiscoveryServer :=
  {| s_EndpointShardsByService :=
       {[ "svc.ns" := {| Shards := ∅; ServiceAccounts := {[ "a" ]} |} ]};
     edsUpdates := ∅;
     ConfigUpdates := [] |}.

Definition emptyServer : DiscoveryServer :=
  {| s_EndpointShardsByService := ∅; edsUpdates := ∅; ConfigUpdates := [] |}.

(** The service-account set recorded for a service, if the service is known. *)
Definition serviceAccountsOf (s : DiscoveryServer) (serviceName : string)
    : option (gset string) :=
  ServiceAccounts <$> (s_EndpointShardsByService s !! serviceName).

(** An entry introduces an account: its service account is non-empty and not
    in the recorded set. *)
Definition introducesAccount (accounts : gset string) (e : IstioEndpoint) : Prop :=
  IE_ServiceAccount e <> "" /\ IE_ServiceAccount e ∉ accounts.

(** The account set [edsUpdate] tests the entries against: the recorded set
    of a known service, the empty set of a service it has just created. *)
Definition knownAccounts (s : DiscoveryServer) (serviceName : string) : gset string :=
  match s_EndpointShardsByService s !! serviceName with
  | Some ep => ServiceAccounts ep
  | None => ∅
  end.

Definition clusterWithClients (cl : gmap string XdsConnection) : EdsCluster :=
  {| LoadAssignment := None; FirstUse := 0; EdsClients := cl; NonEmptyTime := None |}.

(** Collaborators and inputs of scenario S1: service ["svc.ns"], port 80
    named ["http"], one shard with an endpoint in each of two zones. *)
Definition sampleParseSubsetKey (clusterName : string)
    : TrafficDirection * string * string * Z :=
  (TrafficDirectionOutbound, "", "svc.ns", 80).

Definition sampleSubsetToLabels (push : PushContext) (subsetName hostname : string)
    : Labels := ∅.

Definition sampleAZLabel : string := "zone".

Definition sampleGetAZ (instance : ServiceInstance) : string :=
  default "" (SI_Labels instance !! sampleAZLabel).

Definition sampleValidate (e : NetworkEndpoint) : option Error := None.

Definition sampleGetAddress (e : NetworkEndpoint) : Address :=
  Address_SocketAddress (NE_Address e) (NE_Port e).

Definition failingRegistry (hostname : string) (port : Z) (labels : Labels)
    : result (list ServiceInstance) := Err "registry unavailable".

Definition sampleRange (A : Type) (m : gmap string A) : list (string * A) :=
  map_to_list m.

Definition samplePush : PushContext :=
  {| ServicePort2Name :=
       {[ "svc.ns" := [ {| Port_Name := "http"; Port_Port := 80;
                           Port_Protocol := ProtocolOther "HTTP" |} ] ]};
     Services := [] |}.

(** A push context without a port mapping for the service. *)
Definition pushWithoutPorts : PushContext :=
  {| ServicePort2Name := ∅; Services := [] |}.

Definition sampleEndpoint (address zone : string) : IstioEndpoint :=
  {| IE_Labels := {[ sampleAZLabel := zone ]}; IE_Family := AddressFamilyTCP;
     IE_Address := address; EndpointPort := 80; ServicePortName := "http";
     IE_UID := ""; EnvoyEndpoint := None; IE_Network := "";
     IE_ServiceAccount := "" |}.

Definition sampleShards : EndpointShardsByService :=
  {| Shards :=
       {[ "r1" := {| Shard := "r1";
                     Entries := [ sampleEndpoint "10.0.0.1" "us-east-1a";
                                  sampleEndpoint "10.0.0.2" "us-east-1b" ] |} ]};
     ServiceAccounts := ∅ |}.

Definition sampleServer : DiscoveryServer :=
  {| s_EndpointShardsByService := {[ "svc.ns" := sampleShards ]};
     edsUpdates := ∅;
     ConfigUpdates := [] |}.

(** A registry that knows the two instances of scenario S1. *)
Definition sampleInstance (address zone : string) : ServiceInstance :=
  {| SI_Endpoint := {| NE_Family := AddressFamilyTCP; NE_Address := address;
                       NE_Port := 80; NE_UID := ""; NE_Network := "" |};
     SI_Labels := {[ sampleAZLabel := zone ]};
     SI_ServiceAccount := "" |}.

Definition sampleRegistry (hostname : string) (port : Z) (labels : Labels)
    : result (list ServiceInstance) :=
  Ok [ sampleInstance "10.0.0.1" "us-east-1a";
       sampleInstance "10.0.0.2" "us-east-1b" ].

Section Builders.

(** Collaborators that live outside eds.go. *)
Variable ParseSubsetKey : string -> TrafficDirection * string * string * Z.
Variable SubsetToLabels : PushContext -> string -> string -> Labels.
Variable AZLabel : string.
Variable GetAZ : ServiceInstance -> string.
Variable ValidateNetworkEndpointAddress : NetworkEndpoint -> option Error.
Variable GetNetworkEndpointAddress : NetworkEndpoint -> Address.
Variable InstancesByPort : string -> Z -> Labels -> result (list ServiceInstance).

(** The order in which a [range] loop visits a map. *)
Variable rangeMap : forall {A : Type}, gmap string A -> list (string * A).

Definition networkEndpointToEnvoyEndpoint (e : NetworkEndpoint) : result LbEndpoint :=
  match ValidateNetworkEndpointAddress e with
  | Some err => Err err
  | None =>
      let addr := GetNetworkEndpointAddress e in
      let md0 : option Metadata :=
        if bool_decide (NE_UID e <> "" \/ NE_Network e <> "")
        then Some {[ "istio" := ∅ ]} else None in
      let md1 :=
        if bool_decide (NE_UID e <> "") then setIstioField md0 "uid" (NE_UID e)
        else md0 in
      let md2 :=
        if bool_decide (NE_Network e <> "")
        then setIstioField md1 "network" (NE_Network e)
        else md1 in
      Ok {| Endpoint_Address := addr; Endpoint_Metadata := md2 |}
  end.

(** *** Full path *)

(** The loop of [localityLbEndpointsFromInstances]: the number of failed
    conversions so far and the locality map. *)
Definition fromInstance (acc : Z * gmap string LocalityLbEndpoints)
    (instance : ServiceInstance) : Z * gmap string LocalityLbEndpoints :=
  let '(errors, localityEpMap) := acc in
  match networkEndpointToEnvoyEndpoint (SI_Endpoint instance) with
  | Err _ => (errors + 1, localityEpMap)
  | Ok lbEp => (errors, appendToLocality localityEpMap (GetAZ instance) lbEp)
  end.

Definition localityLbEndpointsFromInstances (instances : list ServiceInstance)
    : Z * list LocalityLbEndpoints :=
  let '(errors, localityEpMap) := fold_left fromInstance instances (0, ∅) in
  (errors, map snd (rangeMap localityEpMap)).

Definition isInOrOutbound (d : TrafficDirection) : bool :=
  match d with
  | TrafficDirectionInbound | TrafficDirectionOutbound => true
  | TrafficDirectionOther _ => false
  end.

Definition updateCluster (w : World) (push : PushContext) (clusterName : string)
    (edsCluster : EdsCluster) (now : Z) : World * EdsCluster * option Error :=
  let '(direction, subsetName, hostname, port) := ParseSubsetKey clusterName in
  let built : World * result (list LocalityLbEndpoints) :=
    if isInOrOutbound direction then
      let labels := SubsetToLabels push subsetName hostname in
      let w := logQuery w (hostname, port, labels) in
      match InstancesByPort hostname port labels with
      | Err err => (addInternalErrors w 1, Err err)
      | Ok instances =>
          let w := if bool_decide (length instances = 0%nat)
                   then addNoInstances w clusterName else w in
          let w := setEdsInstances w clusterName (Z.of_nat (length instances)) in
          let '(errors, locEps) := localityLbEndpointsFromInstances instances in
          (addInternalErrors w errors, Ok locEps)
      end
    else (w, Ok []) in
  match built with
  | (w, Err err) => (w, edsCluster, Some err)
  | (w, Ok locEps) =>
      let locEps := map weightByCount locEps in
      (w, installAssignment edsCluster clusterName locEps now, None)
  end.

(** *** Incremental path *)

(** The wire endpoint appended for a shard entry: the cached one, or the one
    built (and cached) on the spot. *)
Definition wireEndpoint (el : IstioEndpoint) : LbEndpoint :=
  match EnvoyEndpoint el with
  | Some ep => ep
  | None => buildEnvoyLbEndpoint (IE_UID el) (IE_Family el) (IE_Address el)
              (EndpointPort el) (IE_Network el)
  end.

Definition cacheEnvoyEndpoint (el : IstioEndpoint) : IstioEndpoint :=
  {| IE_Labels := IE_Labels el; IE_Family := IE_Family el;
     IE_Address := IE_Address el; EndpointPort := EndpointPort el;
     ServicePortName := ServicePortName el; IE_UID := IE_UID el;
     EnvoyEndpoint := Some (wireEndpoint el);
     IE_Network := IE_Network el; IE_ServiceAccount := IE_ServiceAccount el |}.

(** [(el.Labels)[model.AZLabel]], the empty string when the label is absent. *)
Definition zoneOf (el : IstioEndpoint) : string :=
  default "" (IE_Labels el !! AZLabel).

(** The two [continue] tests of the inner loop. *)
Definition selected (svcPortName : string) (labels : Labels) (el : IstioEndpoint) : bool :=
  bool_decide (svcPortName = ServicePortName el) && HasSubsetOf labels (IE_Labels el).

(** Body of the inner loop: [cnt], the locality map, and the entry itself,
    whose cache field the body may fill. *)
Definition incEntry (svcPortName : string) (labels : Labels)
    (acc : nat * gmap string LocalityLbEndpoints) (el : IstioEndpoint)
    : nat * gmap string LocalityLbEndpoints * IstioEndpoint :=
  let '(cnt, localityEpMap) := acc in
  if negb (bool_decide (svcPortName = ServicePortName el)) then (acc, el)
  else if negb (HasSubsetOf labels (IE_Labels el)) then (acc, el)
  else
    let el' := cacheEnvoyEndpoint el in
    (S cnt, appendToLocality localityEpMap (zoneOf el) (wireEndpoint el), el').

Fixpoint incEntries (svcPortName : string) (labels : Labels)
    (acc : nat * gmap string LocalityLbEndpoints) (els : list IstioEndpoint)
    : nat * gmap string LocalityLbEndpoints * list IstioEndpoint :=
  match els with
  | [] => (acc, [])
  | el :: els' =>
      let '(acc1, el') := incEntry svcPortName labels acc el in
      let '(acc2, els'') := incEntries svcPortName labels acc1 els' in
      (acc2, el' :: els'')
  end.

(** Body of the outer loop, over one shard. *)
Definition incShard (svcPortName : string) (labels : Labels)
    (acc : nat * gmap string LocalityLbEndpoints * gmap string EndpointShard)
    (kv : string * EndpointShard)
    : nat * gmap string LocalityLbEndpoints * gmap string EndpointShard :=
  let '(st, shards) := acc in
  let '(k, es) := kv in
  let '(st', els') := incEntries svcPortName labels st (Entries es) in
  (st', <[k := {| Shard := Shard es; Entries := els' |}]> shards).

(** The part of [updateClusterInc] after the three lookups succeeded. *)
Definition updateClusterIncShards (s : DiscoveryServer) (w : World)
    (clusterName hostname : string) (labels : Labels) (svcPort : Port)
    (se : EndpointShardsByService) (edsCluster : EdsCluster) (now : Z)
    : DiscoveryServer * World * EdsCluster * option Error :=
  let '(cnt, localityEpMap, shards') :=
    fold_left (incShard (Port_Name svcPort) labels) (rangeMap (Shards se))
              (0%nat, ∅, Shards se) in
  let locEps := map (fun kv => weightByCount (snd kv)) (rangeMap localityEpMap) in
  let w := if bool_decide (cnt = 0%nat) then addNoInstances w clusterName else w in
  let w := setEdsInstances w clusterName (Z.of_nat cnt) in
  let se' := {| Shards := shards'; ServiceAccounts := ServiceAccounts se |} in
  ({| s_EndpointShardsByService :=
        <[hostname := se']> (s_EndpointShardsByService s);
      edsUpdates := edsUpdates s;
      ConfigUpdates := ConfigUpdates s |},
   w, installAssignment edsCluster clusterName locEps now, None).

Definition viaFullPath (s : DiscoveryServer)
    (r : World * EdsCluster * option Error)
    : DiscoveryServer * World * EdsCluster * option Error :=
  let '(w, c, err) := r in (s, w, c, err).

Definition updateClusterInc (s : DiscoveryServer) (w : World) (push : PushContext)
    (clusterName : string) (edsCluster : EdsCluster) (now : Z)
    : DiscoveryServer * World * EdsCluster * option Error :=
  let '(_, subsetName, hostname, port) := ParseSubsetKey clusterName in
  let labels := SubsetToLabels push subsetName hostname in
  match ServicePort2Name push !! hostname with
  | None => viaFullPath s (updateCluster w push clusterName edsCluster now)
  | Some portMap =>
      match GetByPort portMap port with
      | None => viaFullPath s (updateCluster w push clusterName edsCluster now)
      | Some svcPort =>
          match s_EndpointShardsByService s !! hostname with
          | None => viaFullPath s (updateCluster w push clusterName edsCluster now)
          | Some se =>
              updateClusterIncShards s w clusterName hostname labels svcPort se
                edsCluster now
          end
      end
  end.

(** *** Vocabulary for the statements about the builders *)

(** The shard entries in the order [updateClusterInc] visits them. *)
Definition allEntries (se : EndpointShardsByService) : list IstioEndpoint :=
  concat (map (fun kv => Entries (snd kv)) (rangeMap (Shards se))).

(** Selected entries of one zone, and their wire endpoints in visit order. *)
Definition inZone (svcPortName : string) (labels : Labels) (zone : string)
    (el : IstioEndpoint) : bool :=
  selected svcPortName labels el && bool_decide (zoneOf el = zone).

Definition zoneGroup (svcPortName : string) (labels : Labels) (zone : string)
    (els : list IstioEndpoint) : list LbEndpoint :=
  map wireEndpoint (List.filter (inZone svcPortName labels zone) els).

(** The locality map entry for a zone after the entries [els] were visited. *)
Definition groupOf (svcPortName : string) (labels : Labels) (zone : string)
    (els : list IstioEndpoint) : option LocalityLbEndpoints :=
  match zoneGroup svcPortName labels zone els with
  | [] => None
  | eps => Some {| LLE_Locality := Some (zoneLocality zone);
                   LbEndpoints := eps; LoadBalancingWeight := None |}
  end.

(** The state of the two loops after the entries [els] were visited. *)
Definition visited (svcPortName : string) (labels : Labels)
    (els : list IstioEndpoint) (acc : nat * gmap string LocalityLbEndpoints) : Prop :=
  fst acc = length (List.filter (selected svcPortName labels) els)
  /\ forall zone, snd acc !! zone = groupOf svcPortName labels zone els.


(** Every [range] over a map visits each entry exactly once. *)
Hypothesis rangeMap_Permutation :
  forall (A : Type) (m : gmap string A), rangeMap m ≡ₚ map_to_list m.

(** *** Vocabulary for the further properties of the builders *)



(** The number of shard entries that pass both tests. *)
Definition selectedCount (svcPortName : string) (labels : Labels)
    (se : EndpointShardsByService) : nat :=
  length (List.filter (selected svcPortName labels) (allEntries se)).

(** The wire endpoint of a registry instance, if its address is valid. *)
Definition instanceWire (instance : ServiceInstance) : option LbEndpoint :=
  match networkEndpointToEnvoyEndpoint (SI_Endpoint instance) with
  | Ok ep => Some ep
  | Err _ => None
  end.

(** The wire endpoints of the valid instances of one zone, in list order. *)
Definition azGroup (zone : string) (instances : list ServiceInstance)
    : list LbEndpoint :=
  omap (fun i => if bool_decide (GetAZ i = zone) then instanceWire i else None)
       instances.

Definition azGroupOf (zone : string) (instances : list ServiceInstance)
    : option LocalityLbEndpoints :=
  match azGroup zone instances with
  | [] => None
  | eps => Some {| LLE_Locality := Some (zoneLocality zone);
                   LbEndpoints := eps; LoadBalancingWeight := None |}
  end.

(** The number of instances whose address fails validation. *)
Definition invalidCount (instances : list ServiceInstance) : Z :=
  Z.of_nat (length (List.filter
                      (fun i => bool_decide (instanceWire i = None)) instances)).

(** The state of the loop of [localityLbEndpointsFromInstances] after the
    given instances. *)
Definition converted (instances : list ServiceInstance)
    (acc : Z * gmap string LocalityLbEndpoints) : Prop :=
  fst acc = invalidCount instances
  /\ forall zone, snd acc !! zone = azGroupOf zone instances.

(** *** Service port updates *)

(** The [model.Port] appended for one entry of [ports]; the protocol is left
    at its zero value. *)
Definition portOf (kv : string * Z) : Port :=
  {| Port_Name := fst kv; Port_Port := snd kv; Port_Protocol := ProtocolOther "" |}.

(** [SvcUpdate] on the global push context: [ports] maps port names to port
    numbers, [rports] is the reverse map (not read). *)
Definition SvcUpdate (pc : PushContext) (cluster hostname : string)
    (ports : gmap string Z) (rports : gmap Z string) : PushContext :=
  if bool_decide (cluster = "") then
    let pl := fold_left (fun pl kv => pl ++ [portOf kv]) (rangeMap ports) [] in
    {| ServicePort2Name := <[hostname := pl]> (ServicePort2Name pc);
       Services := Services pc |}
  else pc.

(** *** Registry reconciler *)

(** [updateServiceShards]: the sweep of all registries, then, if no query
    failed, the replacement of the service-account sets. [registries] is the
    member list of the aggregate, or the one service discovery. *)
Definition updateServiceShards (s : DiscoveryServer) (push : PushContext)
    (registries : list Registry) : DiscoveryServer * option Error :=
  match sweepRegistries registries (Services push) s ∅ with
  | (s', _, Some err) => (s', Some err)
  | (s', svc2account, None) =>
      (fold_left setServiceAccounts (rangeMap svc2account) s', None)
  end.

(** *** Incremental push: recomputation of the updated clusters *)

(** The hostname a cluster name decodes to. *)
Definition hostnameOf (clusterName : string) : string :=
  snd (fst (ParseSubsetKey clusterName)).

(** Body of the second loop of [edsIncremental]: a failed build is logged
    and otherwise ignored. [now] gives the time at which each cluster is
    rebuilt. *)
Definition edsIncrementalCluster (push : PushContext) (now : string -> Z)
    (acc : DiscoveryServer * World * gmap string EdsCluster)
    (kv : string * EdsCluster)
    : DiscoveryServer * World * gmap string EdsCluster :=
  let '(s, w, clusters) := acc in
  let '(s', w', c', _) :=
    updateClusterInc s w push (fst kv) (snd kv) (now (fst kv)) in
  (s', w', <[fst kv := c']> clusters).

(** [edsIncremental] up to its call of [startPush]: the clusters whose
    hostname has an entry in [edsUpdates] are collected and rebuilt. *)
Definition edsIncremental (s : DiscoveryServer) (w : World)
    (edsClusters : gmap string EdsCluster) (push : PushContext)
    (edsUpdates : gset string) (now : string -> Z)
    : DiscoveryServer * World * gmap string EdsCluster :=
  let cMap :=
    filter (fun kv : string * EdsCluster => hostnameOf (fst kv) ∈ edsUpdates)
           edsClusters in
  fold_left (edsIncrementalCluster push now) (rangeMap cMap) (s, w, edsClusters).

(** *** Push to one connection *)

Variable EndpointType : string.

(** [s.endpoints]: the response around the resources; version and nonce are
    generated outside eds.go. *)
Definition endpoints (versionInfo nonce : string)
    (outRes : list ClusterLoadAssignment) : DiscoveryResponse :=
  {| TypeUrl := EndpointType; VersionInfo := versionInfo; Nonce := nonce;
     Resources := outRes |}.

(** Body of the loop of [pushEds], for one watched cluster name. The state
    is the world, the registry and the resources collected so far.
    [edsUpdatedServices] is [None] for a nil map. *)
Definition pushEdsCluster (push : PushContext)
    (edsUpdatedServices : option (gset string))
    (filters : list (list LocalityLbEndpoints -> XdsConnection -> list LocalityLbEndpoints))
    (con : XdsConnection) (now : string -> Z)
    (acc : World * gmap string EdsCluster * list ClusterLoadAssignment)
    (clusterName : string)
    : World * gmap string EdsCluster * list ClusterLoadAssignment :=
  let '(w, clusters, resAny) := acc in
  let skip :=
    match edsUpdatedServices with
    | Some updated => negb (bool_decide (hostnameOf clusterName ∈ updated))
    | None => false
    end in
  if skip then acc
  else
    match getEdsCluster clusters clusterName with
    | None => (addInternalErrors w 1, clusters, resAny)
    | Some c =>
        let '(w, c, l) :=
          match LoadAssignment c with
          | Some l => (w, c, Some l)
          | None =>
              (* fresh cluster *)
              let '(w', c', err) := updateCluster w push clusterName c (now clusterName) in
              match err with
              | Some _ => (addInternalErrors w' 1, c', None)
              | None => (w', c', LoadAssignment c')
              end
          end in
        match l with
        | None => (w, <[clusterName := c]> clusters, resAny)
        | Some l =>
            if (0 <? length filters)%nat then
              let filteredCLA :=
                {| ClusterName := ClusterName l;
                   Endpoints := applyEndpointsFilterFuncs filters (Endpoints l) con |} in
              (w, <[clusterName := c]> clusters,
               resAny ++ [normalizeAssignment filteredCLA])
            else
              (* [l] is the stored assignment itself: it is normalized in place *)
              (w, <[clusterName := set_assignment c (normalizeAssignment l)]> clusters,
               resAny ++ [normalizeAssignment l])
        end
    end.

(** [pushEds]: the resources of the watched clusters, the send, and the push
    counter. *)
Definition pushEds (w : World) (edsClusters : gmap string EdsCluster)
    (pushes : gmap string Z) (push : PushContext)
    (Clusters : list string) (con : XdsConnection)
    (send : DiscoveryResponse -> option Error)
    (edsUpdatedServices : option (gset string))
    (filters : list (list LocalityLbEndpoints -> XdsConnection -> list LocalityLbEndpoints))
    (versionInfo nonce : string) (now : string -> Z)
    : World * gmap string EdsCluster * gmap string Z * option Error :=
  let '(w, clusters, resAny) :=
    fold_left (pushEdsCluster push edsUpdatedServices filters con now)
              Clusters (w, edsClusters, []) in
  let response := endpoints versionInfo nonce resAny in
  match send response with
  | Some err => (w, clusters, countPush pushes "eds_senderr", Some err)
  | None => (w, clusters, countPush pushes "eds", None)
  end.


(** * Properties of the assignment builders *)

Lemma wrap_small (z : Z) : Uint32.in_range z -> Uint32.wrap z = z.
Proof. unfold Uint32.in_range, Uint32.wrap. intros H. by apply Z.mod_small. Qed.

Lemma wrap_in_range (z : Z) : Uint32.in_range (Uint32.wrap z).
Proof.
  unfold Uint32.in_range, Uint32.wrap, Uint32.modulus.
  apply Z.mod_pos_bound. lia.
Qed.

(** ** Metadata on the full path *)

Lemma networkEndpointToEnvoyEndpoint_metadata (e : NetworkEndpoint) (ep : LbEndpoint) :
  networkEndpointToEnvoyEndpoint e = Ok ep ->
  (istioField ep "uid" = if bool_decide (NE_UID e <> "") then Some (NE_UID e) else None)
  /\ (istioField ep "network" =
        if bool_decide (NE_Network e <> "") then Some (NE_Network e) else None)
  /\ (NE_UID e = "" -> NE_Network e = "" -> Endpoint_Metadata ep = None).
Proof.
  unfold networkEndpointToEnvoyEndpoint.
  destruct (ValidateNetworkEndpointAddress e); [discriminate|].
  intros [= <-]. unfold istioField, setIstioField. cbn [Endpoint_Metadata].
  destruct (bool_decide_reflect (NE_UID e <> "")) as [Hu|Hu];
    destruct (bool_decide_reflect (NE_Network e <> "")) as [Hn|Hn].
  - rewrite bool_decide_eq_true_2 by tauto. cbn.
    rewrite !alter_singleton_eq, lookup_singleton_eq.
    rewrite lookup_insert_ne by done. rewrite !lookup_insert_eq.
    repeat split; done.
  - rewrite bool_decide_eq_true_2 by tauto. cbn.
    rewrite !alter_singleton_eq, lookup_singleton_eq.
    rewrite lookup_insert_eq, lookup_insert_ne by done. rewrite lookup_empty.
    repeat split; done.
  - rewrite bool_decide_eq_true_2 by tauto. cbn.
    rewrite !alter_singleton_eq, lookup_singleton_eq.
    rewrite lookup_insert_eq, lookup_insert_ne by done. rewrite lookup_empty.
    repeat split; done.
  - rewrite bool_decide_eq_false_2 by tauto. cbn. repeat split; done.
Qed.

(** ** Full path: errors *)

Lemma updateCluster_outcome (w : World) (push : PushContext) (clusterName : string)
    (edsCluster : EdsCluster) (now : Z) (w' : World) (c' : EdsCluster)
    (r : option Error) :
  updateCluster w push clusterName edsCluster now = (w', c', r) ->
  match r with
  | Some _ => c' = edsCluster
  | None => exists locEps, c' = installAssignment edsCluster clusterName locEps now
  end.
Proof.
  unfold updateCluster.
  destruct (ParseSubsetKey clusterName) as [[[direction subsetName] hostname] port].
  destruct (isInOrOutbound direction).
  - destruct (InstancesByPort hostname port (SubsetToLabels push subsetName hostname))
      as [instances|err].
    + destruct (localityLbEndpointsFromInstances instances) as [errors locEps].
      intros [= <- <- <-]. eauto.
    + intros [= <- <- <-]. reflexivity.
  - intros [= <- <- <-]. eauto.
Qed.

(** C9: when the registry query [InstancesByPort] of a full-path build fails,
    [updateCluster] returns that error and the cluster entry, its stored
    assignment included, is what it was before the call. Whatever the build
    does, an entry that differs from the old one comes with a nil error, and
    then it holds the newly built assignment. *)
Theorem updateCluster_error_keeps_assignment (w : World) (push : PushContext)
    (clusterName : string) (edsCluster : EdsCluster) (now : Z) :
  (forall direction subsetName hostname port err,
     ParseSubsetKey clusterName = (direction, subsetName, hostname, port) ->
     isInOrOutbound direction = true ->
     InstancesByPort hostname port (SubsetToLabels push subsetName hostname) = Err err ->
     exists w', updateCluster w push clusterName edsCluster now
                = (w', edsCluster, Some err))
  /\ (forall w' c' r,
        updateCluster w push clusterName edsCluster now = (w', c', r) ->
        (r <> None -> c' = edsCluster
                      /\ LoadAssignment c' = LoadAssignment edsCluster)
        /\ (r = None -> exists locEps,
              LoadAssignment c'
              = Some {| ClusterName := clusterName; Endpoints := locEps |})).
Proof.
  split.
  - intros direction subsetName hostname port err Hkey Hdir Herr.
    unfold updateCluster. rewrite Hkey, Hdir, Herr. eauto.
  - intros w' c' r H. apply updateCluster_outcome in H.
    destruct r as [err|].
    + subst c'. split; [done|]. intros Hr. done.
    + destruct H as [locEps ->]. split; [done|]. intros _.
      exists locEps. reflexivity.
Qed.

(** ** Incremental path: delegation to the full path *)



(** ** Incremental path: selection and grouping *)

Lemma selected_spec (svcPortName : string) (labels : Labels) (el : IstioEndpoint) :
  selected svcPortName labels el = true
  <-> svcPortName = ServicePortName el /\ labels ⊆ IE_Labels el.
Proof.
  unfold selected, HasSubsetOf.
  rewrite andb_true_iff, !bool_decide_eq_true, map_subseteq_spec.
  reflexivity.
Qed.

Lemma zoneGroup_app (n : string) (l : Labels) (z : string) (a b : list IstioEndpoint) :
  zoneGroup n l z (a ++ b) = zoneGroup n l z a ++ zoneGroup n l z b.
Proof. unfold zoneGroup. by rewrite List.filter_app, map_app. Qed.

Lemma groupOf_snoc_in (n : string) (l : Labels) (z : string)
    (done : list IstioEndpoint) (el : IstioEndpoint) :
  inZone n l z el = true ->
  groupOf n l z (done ++ [el])
  = Some {| LLE_Locality := Some (zoneLocality z);
            LbEndpoints := zoneGroup n l z done ++ [wireEndpoint el];
            LoadBalancingWeight := None |}.
Proof.
  intros H. unfold groupOf. rewrite zoneGroup_app.
  unfold zoneGroup at 2. cbn [List.filter]. rewrite H. cbn [map].
  by destruct (zoneGroup n l z done).
Qed.

Lemma groupOf_snoc_out (n : string) (l : Labels) (z : string)
    (done : list IstioEndpoint) (el : IstioEndpoint) :
  inZone n l z el = false ->
  groupOf n l z (done ++ [el]) = groupOf n l z done.
Proof.
  intros H. unfold groupOf. rewrite zoneGroup_app.
  unfold zoneGroup at 2. cbn [List.filter]. rewrite H. cbn [map].
  by rewrite app_nil_r.
Qed.

Lemma visited_nil (n : string) (l : Labels) : visited n l [] (0%nat, ∅).
Proof. split; [reflexivity|]. intros z. cbn [snd]. by rewrite lookup_empty. Qed.

Lemma visited_skip (n : string) (l : Labels) (done : list IstioEndpoint)
    (el : IstioEndpoint) (acc : nat * gmap string LocalityLbEndpoints) :
  selected n l el = false -> visited n l done acc -> visited n l (done ++ [el]) acc.
Proof.
  intros Hsel [Hcnt Hmap]. split.
  - rewrite List.filter_app. cbn [List.filter]. rewrite Hsel, app_nil_r. exact Hcnt.
  - intros z. rewrite groupOf_snoc_out; [apply Hmap|].
    unfold inZone. by rewrite Hsel.
Qed.

Lemma incEntry_visited (n : string) (l : Labels) (done : list IstioEndpoint)
    (acc : nat * gmap string LocalityLbEndpoints) (el : IstioEndpoint) :
  visited n l done acc -> visited n l (done ++ [el]) (fst (incEntry n l acc el)).
Proof.
  intros Hv. unfold incEntry. destruct acc as [cnt m].
  destruct (bool_decide (n = ServicePortName el)) eqn:Hport; cbn [negb].
  2: { apply visited_skip; [|exact Hv]. unfold selected. by rewrite Hport. }
  destruct (HasSubsetOf l (IE_Labels el)) eqn:Hlab; cbn [negb].
  2: { apply visited_skip; [|exact Hv]. unfold selected. by rewrite Hport, Hlab. }
  assert (Hsel : selected n l el = true) by (unfold selected; by rewrite Hport, Hlab).
  destruct Hv as [Hcnt Hmap]. cbn [fst snd] in *. split.
  - cbn [fst]. rewrite List.filter_app. cbn [List.filter]. rewrite Hsel.
    rewrite length_app. cbn [length]. lia.
  - intros z. cbn [snd]. unfold appendToLocality.
    destruct (decide (z = zoneOf el)) as [->|Hz].
    + rewrite lookup_insert_eq, groupOf_snoc_in.
      2: { unfold inZone. rewrite Hsel. by rewrite bool_decide_eq_true_2. }
      rewrite Hmap. unfold groupOf.
      by destruct (zoneGroup n l (zoneOf el) done).
    + rewrite lookup_insert_ne by done. rewrite groupOf_snoc_out; [apply Hmap|].
      unfold inZone. rewrite bool_decide_eq_false_2 by done. apply andb_false_r.
Qed.

Lemma incEntries_visited (n : string) (l : Labels) (els done : list IstioEndpoint)
    (acc : nat * gmap string LocalityLbEndpoints) :
  visited n l done acc -> visited n l (done ++ els) (fst (incEntries n l acc els)).
Proof.
  revert done acc. induction els as [|el els IH]; intros done acc Hv.
  - cbn. by rewrite app_nil_r.
  - cbn [incEntries].
    pose proof (incEntry_visited n l done acc el Hv) as H1.
    destruct (incEntry n l acc el) as [acc1 el'].
    specialize (IH (done ++ [el]) acc1 H1).
    destruct (incEntries n l acc1 els) as [acc2 els''].
    cbn [fst] in *. by rewrite <- app_assoc in IH.
Qed.

Lemma incShards_visited (n : string) (l : Labels)
    (kvs : list (string * EndpointShard)) (done : list IstioEndpoint)
    (acc : nat * gmap string LocalityLbEndpoints * gmap string EndpointShard) :
  visited n l done (fst acc) ->
  visited n l (done ++ concat (map (fun kv => Entries (snd kv)) kvs))
    (fst (fold_left (incShard n l) kvs acc)).
Proof.
  revert done acc. induction kvs as [|[k es] kvs IH]; intros done acc Hv.
  - cbn. by rewrite app_nil_r.
  - cbn [fold_left map concat]. rewrite app_assoc. apply IH.
    unfold incShard. destruct acc as [st shards]. cbn [fst snd] in *.
    pose proof (incEntries_visited n l (Entries es) done st Hv) as H1.
    by destruct (incEntries n l st (Entries es)) as [st' els'].
Qed.

Lemma elem_of_rangeMap {A : Type} (m : gmap string A) (k : string) (v : A) :
  (k, v) ∈ rangeMap m <-> m !! k = Some v.
Proof. by rewrite (rangeMap_Permutation A m), elem_of_map_to_list. Qed.

(** C6: when the three lookups of [updateClusterInc] succeed, the installed
    assignment is built from the shard entries of the service as follows.
    An entry is included iff its service port name is the name of the port
    found for the cluster's port number and the subset's selector labels are
    a subset of its labels.  Every group of the assignment carries a zone
    [zone] and holds, in visit order, one endpoint for each included entry
    whose label [AZLabel] (the empty string when the label is absent) is
    [zone], and for no other entry; that endpoint is the entry's cached
    [EnvoyEndpoint], or the one [buildEnvoyLbEndpoint] makes of the entry when
    nothing is cached.  No group is empty, no two groups carry the same zone,
    every included entry has its endpoint in the group of its zone, and the
    weight of a group is [uint32(len)] of its endpoints: their number,
    whenever that number fits 32 bits. *)
Theorem updateClusterInc_assignment (s : DiscoveryServer) (w : World)
    (push : PushContext) (clusterName : string) (edsCluster : EdsCluster) (now : Z)
    (direction : TrafficDirection) (subsetName hostname : string) (port : Z)
    (portMap : PortList) (svcPort : Port) (se : EndpointShardsByService) :
  ParseSubsetKey clusterName = (direction, subsetName, hostname, port) ->
  ServicePort2Name push !! hostname = Some portMap ->
  GetByPort portMap port = Some svcPort ->
  s_EndpointShardsByService s !! hostname = Some se ->
  let labels := SubsetToLabels push subsetName hostname in
  let entries := concat (map (fun kv => Entries (snd kv)) (rangeMap (Shards se))) in
  let included := fun el : IstioEndpoint =>
    bool_decide (Port_Name svcPort = ServicePortName el)
    && HasSubsetOf labels (IE_Labels el) in
  let zoneLabel := fun el : IstioEndpoint => default "" (IE_Labels el !! AZLabel) in
  let endpointOf := fun el : IstioEndpoint =>
    match EnvoyEndpoint el with
    | Some ep => ep
    | None => buildEnvoyLbEndpoint (IE_UID el) (IE_Family el) (IE_Address el)
                (EndpointPort el) (IE_Network el)
    end in
  exists s' w' c' locEps,
    updateClusterInc s w push clusterName edsCluster now = (s', w', c', None)
    /\ LoadAssignment c'
       = Some {| ClusterName := clusterName; Endpoints := locEps |}
    /\ (forall g, g ∈ locEps ->
          exists zone,
            LLE_Locality g = Some {| Region := ""; Zone := zone; SubZone := "" |}
            /\ LbEndpoints g
               = map endpointOf
                   (List.filter
                      (fun el => included el && bool_decide (zoneLabel el = zone))
                      entries)
            /\ LbEndpoints g <> []
            /\ LoadBalancingWeight g
               = Some (Z.of_nat (length (LbEndpoints g)) mod 2 ^ 32)
            /\ (Z.of_nat (length (LbEndpoints g)) < 2 ^ 32 ->
                LoadBalancingWeight g = Some (Z.of_nat (length (LbEndpoints g)))))
    /\ (forall el, el ∈ entries -> included el = true ->
          exists g, g ∈ locEps
                    /\ LLE_Locality g
                       = Some {| Region := ""; Zone := zoneLabel el; SubZone := "" |}
                    /\ endpointOf el ∈ LbEndpoints g)
    /\ NoDup (map LLE_Locality locEps).
Proof.
  intros Hkey Hpm Hport Hse labels entries included zoneLabel endpointOf.
  set (name := Port_Name svcPort).
  assert (Hzg : forall zone,
            map endpointOf
              (List.filter
                 (fun el => included el && bool_decide (zoneLabel el = zone))
                 entries)
            = zoneGroup name labels zone (allEntries se)) by reflexivity.
  unfold updateClusterInc. rewrite Hkey, Hpm, Hport, Hse.
  unfold updateClusterIncShards. fold labels. fold name.
  pose proof (incShards_visited name labels (rangeMap (Shards se)) []
                (0%nat, ∅, Shards se) (visited_nil name labels)) as Hv.
  cbn [app] in Hv. fold (allEntries se) in Hv.
  destruct (fold_left (incShard name labels) (rangeMap (Shards se))
              (0%nat, ∅, Shards se)) as [[cnt m] shards'].
  destruct Hv as [_ Hmap]. cbn [fst snd] in Hmap.
  eexists _, _, _, _. split; [reflexivity|]. split; [reflexivity|].
  assert (Hgroup : forall z g0, m !! z = Some g0 ->
            g0 = {| LLE_Locality := Some (zoneLocality z);
                    LbEndpoints := zoneGroup name labels z (allEntries se);
                    LoadBalancingWeight := None |}
            /\ zoneGroup name labels z (allEntries se) <> []).
  { intros z g0 Hz. rewrite Hmap in Hz. unfold groupOf in Hz.
    destruct (zoneGroup name labels z (allEntries se)); [discriminate|].
    injection Hz as <-. split; [reflexivity|discriminate]. }
  split; [|split].
  - intros g Hg. apply list_elem_of_In, in_map_iff in Hg as ([z g0] & <- & Hin).
    apply list_elem_of_In, elem_of_rangeMap in Hin.
    destruct (Hgroup z g0 Hin) as [-> Hne].
    exists z. rewrite Hzg. cbn.
    split; [reflexivity|]. split; [reflexivity|]. split; [exact Hne|].
    split; [reflexivity|].
    intros Hfit. f_equal. apply wrap_small.
    unfold Uint32.in_range, Uint32.modulus. lia.
  - intros el Hel Hsel.
    assert (Hin : inZone name labels (zoneOf el) el = true).
    { unfold inZone. apply andb_true_intro. split; [exact Hsel|].
      by apply bool_decide_eq_true_2. }
    assert (Hmem : endpointOf el ∈ zoneGroup name labels (zoneOf el) (allEntries se)).
    { apply list_elem_of_In, in_map_iff. exists el. split; [reflexivity|].
      apply filter_In. split; [by apply list_elem_of_In|exact Hin]. }
    pose proof (Hmap (zoneOf el)) as Hz. unfold groupOf in Hz.
    destruct (zoneGroup name labels (zoneOf el) (allEntries se)) as [|x xs] eqn:Hzeq.
    { by apply elem_of_nil in Hmem. }
    apply elem_of_rangeMap in Hz.
    eexists. split; [|split].
    + apply list_elem_of_In, in_map_iff. eexists. split; [reflexivity|].
      apply list_elem_of_In, Hz.
    + reflexivity.
    + exact Hmem.
  - rewrite map_map.
    rewrite (map_ext_in _ (fun kv => Some (zoneLocality (fst kv)))).
    2: { intros [z g0] Hin. apply list_elem_of_In, elem_of_rangeMap in Hin.
         by destruct (Hgroup z g0 Hin) as [-> _]. }
    rewrite <- (map_map fst (fun z => Some (zoneLocality z))).
    assert (Hinj : Inj eq eq (fun z : string => Some (zoneLocality z))).
    { intros z1 z2 [= H]. exact H. }
    apply (NoDup_fmap_2 (fun z => Some (zoneLocality z))).
    change (map fst (rangeMap m)) with ((rangeMap m).*1).
      rewrite (rangeMap_Permutation _ m). apply NoDup_fst_map_to_list.
Qed.

(** * Further properties of the assignment builders *)

(** ** Incremental path: the cache and the metrics *)





Lemma find_rangeMap {A : Type} (m : gmap string A) (k : string) :
  List.find (fun kv => bool_decide (fst kv = k)) (rangeMap m)
  = (fun v => (k, v)) <$> m !! k.
Proof.
  destruct (List.find _ (rangeMap m)) as [[k1 v1]|] eqn:Hf.
  - apply find_some in Hf as [Hin Hk]. apply bool_decide_eq_true in Hk.
    cbn in Hk. subst k1. apply list_elem_of_In, elem_of_rangeMap in Hin.
    by rewrite Hin.
  - destruct (m !! k) as [v|] eqn:Hm; [|done].
    apply elem_of_rangeMap, list_elem_of_In in Hm.
    apply (find_none _ _ Hf) in Hm. cbn in Hm.
    by rewrite bool_decide_eq_true_2 in Hm.
Qed.

Lemma NoDup_rangeMap_keys {A : Type} (m : gmap string A) : NoDup ((rangeMap m).*1).
Proof. rewrite (rangeMap_Permutation A m). apply NoDup_fst_map_to_list. Qed.



(** X16: On the incremental path the instance gauge of the cluster is set to the
    number of shard entries that pass both tests, the cluster is reported as
    having no instances exactly when that number is zero, and neither the
    error counter nor the registry is touched. *)
Theorem updateClusterInc_metrics (s : DiscoveryServer) (w : World)
    (push : PushContext) (clusterName : string) (edsCluster : EdsCluster) (now : Z)
    (direction : TrafficDirection) (subsetName hostname : string) (port : Z)
    (portMap : PortList) (svcPort : Port) (se : EndpointShardsByService) :
  ParseSubsetKey clusterName = (direction, subsetName, hostname, port) ->
  ServicePort2Name push !! hostname = Some portMap ->
  GetByPort portMap port = Some svcPort ->
  s_EndpointShardsByService s !! hostname = Some se ->
  let cnt := selectedCount (Port_Name svcPort)
               (SubsetToLabels push subsetName hostname) se in
  let w' := snd (fst (fst (updateClusterInc s w push clusterName edsCluster now))) in
  edsInstances w' = <[clusterName := Z.of_nat cnt]> (edsInstances w)
  /\ clusterNoInstances w'
     = clusterNoInstances w ++ (if bool_decide (cnt = 0%nat) then [clusterName] else [])
  /\ totalXDSInternalErrors w' = totalXDSInternalErrors w
  /\ registryQueries w' = registryQueries w.
Proof.
  intros Hkey Hpm Hport Hse. cbn zeta.
  unfold updateClusterInc. rewrite Hkey, Hpm, Hport, Hse.
  unfold updateClusterIncShards, selectedCount.
  pose proof (incShards_visited (Port_Name svcPort)
                (SubsetToLabels push subsetName hostname) (rangeMap (Shards se)) []
                (0%nat, ∅, Shards se) (visited_nil _ _)) as [Hcnt _].
  cbn [app] in Hcnt. fold (allEntries se) in Hcnt.
  destruct (fold_left _ (rangeMap (Shards se)) (0%nat, ∅, Shards se))
    as [[cnt m] shards'].
  cbn [fst snd] in *. subst cnt.
  destruct (bool_decide (length _ = 0%nat)); cbn; by rewrite ?app_nil_r.
Qed.

(** ** Full path: conversion and grouping of the registry's instances *)

Lemma azGroup_app (z : string) (a b : list ServiceInstance) :
  azGroup z (a ++ b) = azGroup z a ++ azGroup z b.
Proof. unfold azGroup. apply omap_app. Qed.

Lemma invalidCount_app (a b : list ServiceInstance) :
  invalidCount (a ++ b) = invalidCount a + invalidCount b.
Proof. unfold invalidCount. rewrite List.filter_app, length_app. lia. Qed.

Lemma fromInstance_converted (done : list ServiceInstance)
    (acc : Z * gmap string LocalityLbEndpoints) (instance : ServiceInstance) :
  converted done acc -> converted (done ++ [instance]) (fromInstance acc instance).
Proof.
  intros [Herr Hmap]. destruct acc as [errors m]. cbn [fst snd] in *.
  unfold fromInstance.
  destruct (networkEndpointToEnvoyEndpoint (SI_Endpoint instance)) as [lbEp|err] eqn:Hconv.
  - assert (Hw : instanceWire instance = Some lbEp) by (unfold instanceWire; by rewrite Hconv).
    split; cbn [fst snd].
    + rewrite invalidCount_app. unfold invalidCount at 2. cbn [List.filter].
      rewrite Hw. cbn. lia.
    + intros z. unfold azGroupOf. rewrite azGroup_app.
      unfold azGroup at 2. cbn [omap list_omap]. unfold appendToLocality.
      destruct (decide (z = GetAZ instance)) as [->|Hz].
      * rewrite lookup_insert_eq, bool_decide_eq_true_2 by done.
        rewrite Hw, Hmap. unfold azGroupOf.
        by destruct (azGroup (GetAZ instance) done).
      * rewrite lookup_insert_ne by done.
        rewrite bool_decide_eq_false_2 by done. rewrite app_nil_r. apply Hmap.
  - assert (Hw : instanceWire instance = None) by (unfold instanceWire; by rewrite Hconv).
    split; cbn [fst snd].
    + rewrite invalidCount_app. unfold invalidCount at 2. cbn [List.filter].
      rewrite Hw. cbn. lia.
    + intros z. unfold azGroupOf. rewrite azGroup_app.
      unfold azGroup at 2. cbn [omap list_omap]. rewrite Hw.
      destruct (bool_decide (GetAZ instance = z)); rewrite app_nil_r; apply Hmap.
Qed.

Lemma fromInstances_converted (instances done : list ServiceInstance)
    (acc : Z * gmap string LocalityLbEndpoints) :
  converted done acc ->
  converted (done ++ instances) (fold_left fromInstance instances acc).
Proof.
  revert done acc. induction instances as [|i instances IH]; intros done acc H.
  - cbn. by rewrite app_nil_r.
  - cbn [fold_left]. replace (done ++ i :: instances) with ((done ++ [i]) ++ instances)
      by (by rewrite <- app_assoc).
    apply IH. by apply fromInstance_converted.
Qed.

Lemma converted_nil : converted [] (0, ∅).
Proof. split; [reflexivity|]. intros z. cbn [snd]. by rewrite lookup_empty. Qed.

Lemma azGroup_length (z : string) (instances : list ServiceInstance) :
  (length (azGroup z instances) <= length instances)%nat.
Proof.
  unfold azGroup. induction instances as [|i l IH]; [done|].
  cbn [omap list_omap length].
  destruct (if bool_decide (GetAZ i = z) then instanceWire i else None); cbn [length]; lia.
Qed.

(** X17: On the full path, when the registry answers, the installed assignment
    has exactly one group per zone that occurs among the instances with a
    valid address; a group holds the wire endpoints of the valid instances of
    its zone, in the order of the registry's answer, and its weight is their
    number. Instances with an invalid address are left out and counted in the
    internal error counter; the instance gauge counts them all. The one
    registry query is logged. *)
Theorem updateCluster_assignment (w : World) (push : PushContext)
    (clusterName : string) (edsCluster : EdsCluster) (now : Z)
    (direction : TrafficDirection) (subsetName hostname : string) (port : Z)
    (instances : list ServiceInstance) :
  ParseSubsetKey clusterName = (direction, subsetName, hostname, port) ->
  isInOrOutbound direction = true ->
  InstancesByPort hostname port (SubsetToLabels push subsetName hostname)
    = Ok instances ->
  Z.of_nat (length instances) < Uint32.modulus ->
  exists w' c' locEps,
    updateCluster w push clusterName edsCluster now = (w', c', None)
    /\ LoadAssignment c'
       = Some {| ClusterName := clusterName; Endpoints := locEps |}
    /\ (forall g, g ∈ locEps ->
          exists zone,
            LLE_Locality g = Some (zoneLocality zone)
            /\ LbEndpoints g = azGroup zone instances
            /\ LbEndpoints g <> []
            /\ LoadBalancingWeight g = Some (Z.of_nat (length (LbEndpoints g))))
    /\ (forall i ep, i ∈ instances -> instanceWire i = Some ep ->
          exists g, g ∈ locEps /\ LLE_Locality g = Some (zoneLocality (GetAZ i))
                    /\ ep ∈ LbEndpoints g)
    /\ NoDup (map LLE_Locality locEps)
    /\ totalXDSInternalErrors w' = totalXDSInternalErrors w + invalidCount instances
    /\ edsInstances w'
       = <[clusterName := Z.of_nat (length instances)]> (edsInstances w)
    /\ registryQueries w'
       = registryQueries w
         ++ [(hostname, port, SubsetToLabels push subsetName hostname)].
Proof.
  intros Hkey Hdir Hreg Hsize.
  unfold updateCluster. rewrite Hkey, Hdir, Hreg.
  unfold localityLbEndpointsFromInstances.
  pose proof (fromInstances_converted instances [] (0, ∅) converted_nil) as Hconv.
  cbn [app] in Hconv.
  destruct (fold_left fromInstance instances (0, ∅)) as [errors m].
  destruct Hconv as [Herr Hmap]. cbn [fst snd] in Herr, Hmap.
  eexists _, _, _. split; [reflexivity|]. split; [reflexivity|].
  assert (Hgroup : forall z g0, m !! z = Some g0 ->
            g0 = {| LLE_Locality := Some (zoneLocality z);
                    LbEndpoints := azGroup z instances;
                    LoadBalancingWeight := None |}
            /\ azGroup z instances <> []).
  { intros z g0 Hz. rewrite Hmap in Hz. unfold azGroupOf in Hz.
    destruct (azGroup z instances); [discriminate|].
    injection Hz as <-. split; [reflexivity|discriminate]. }
  split; [|split; [|split; [|split; [|split]]]].
  - intros g Hg. rewrite map_map in Hg.
    apply list_elem_of_In, in_map_iff in Hg as ([z g0] & <- & Hin).
    apply list_elem_of_In, elem_of_rangeMap in Hin.
    destruct (Hgroup z g0 Hin) as [-> Hne].
    exists z. cbn. repeat split; [exact Hne|].
    f_equal. apply wrap_small. split; [lia|].
    pose proof (azGroup_length z instances). unfold Uint32.modulus in *. lia.
  - intros i ep Hi Hw.
    assert (Hin : ep ∈ azGroup (GetAZ i) instances).
    { unfold azGroup. apply list_elem_of_omap. exists i. split; [done|].
      by rewrite bool_decide_eq_true_2. }
    pose proof (Hmap (GetAZ i)) as Hz. unfold azGroupOf in Hz.
    destruct (azGroup (GetAZ i) instances) as [|x xs] eqn:Hzg;
      [by apply elem_of_nil in Hin|].
    apply elem_of_rangeMap in Hz.
    eexists. split; [|split].
    + rewrite map_map. apply list_elem_of_In, in_map_iff. eexists.
      split; [reflexivity|]. apply list_elem_of_In, Hz.
    + reflexivity.
    + exact Hin.
  - rewrite !map_map.
    rewrite (map_ext_in _ (fun kv => Some (zoneLocality (fst kv)))).
    2: { intros [z g0] Hin. apply list_elem_of_In, elem_of_rangeMap in Hin.
         by destruct (Hgroup z g0 Hin) as [-> _]. }
    rewrite <- (map_map fst (fun z => Some (zoneLocality z))).
    assert (Hinj : Inj eq eq (fun z : string => Some (zoneLocality z))).
    { intros z1 z2 [= H]. exact H. }
    apply (NoDup_fmap_2 (fun z => Some (zoneLocality z))).
    apply NoDup_rangeMap_keys.
  - destruct (bool_decide (length instances = 0%nat)); cbn; by rewrite Herr.
  - by destruct (bool_decide (length instances = 0%nat)).
  - by destruct (bool_decide (length instances = 0%nat)).
Qed.

(** ** What a build leaves of the cluster entry *)

Lemma keepsEntry_refl (now : Z) (c : EdsCluster) : keepsEntry now c c.
Proof.
  split; [done|]. split; [done|]. destruct (NonEmptyTime c); [done|by left].
Qed.

Lemma keepsEntry_installAssignment (now : Z) (c : EdsCluster) (clusterName : string)
    (locEps : list LocalityLbEndpoints) :
  keepsEntry now c (installAssignment c clusterName locEps now).
Proof.
  split; [done|]. split; [done|]. unfold installAssignment. cbn.
  destruct (NonEmptyTime c) as [t|] eqn:Ht.
  - rewrite bool_decide_eq_false_2 by done. by rewrite andb_false_r.
  - rewrite bool_decide_eq_true_2 by done. rewrite andb_true_r.
    destruct locEps as [|g locEps]; cbn; [by left|].
    right. split; [done|]. eexists. split; [reflexivity|]. done.
Qed.

Lemma updateCluster_keepsEntry (w : World) (push : PushContext)
    (clusterName : string) (edsCluster : EdsCluster) (now : Z) :
  keepsEntry now edsCluster
    (snd (fst (updateCluster w push clusterName edsCluster now))).
Proof.
  destruct (updateCluster w push clusterName edsCluster now) as [[w' c'] r] eqn:H.
  apply updateCluster_outcome in H. cbn [fst snd].
  destruct r; [subst; apply keepsEntry_refl|].
  destruct H as [locEps ->]. apply keepsEntry_installAssignment.
Qed.

Lemma updateClusterInc_keepsEntry (s : DiscoveryServer) (w : World)
    (push : PushContext) (clusterName : string) (edsCluster : EdsCluster) (now : Z) :
  keepsEntry now edsCluster
    (snd (fst (updateClusterInc s w push clusterName edsCluster now))).
Proof.
  pose proof (updateCluster_keepsEntry w push clusterName edsCluster now) as Hfull.
  unfold updateClusterInc.
  destruct (ParseSubsetKey clusterName) as [[[direction subsetName] hostname] port].
  assert (Hvia : keepsEntry now edsCluster
            (snd (fst (viaFullPath s (updateCluster w push clusterName edsCluster now))))).
  { unfold viaFullPath.
    by destruct (updateCluster w push clusterName edsCluster now) as [[w' c'] r]. }
  destruct (ServicePort2Name push !! hostname) as [portMap|]; [|exact Hvia].
  destruct (GetByPort portMap port) as [svcPort|]; [|exact Hvia].
  destruct (s_EndpointShardsByService s !! hostname) as [se|]; [|exact Hvia].
  unfold updateClusterIncShards.
  destruct (fold_left _ (rangeMap (Shards se)) (0%nat, ∅, Shards se))
    as [[cnt m] shards'].
  cbn [fst snd]. apply keepsEntry_installAssignment.
Qed.

(** X18: Neither builder touches the subscribers or the time of first use of the
    cluster entry, on any path, and [NonEmptyTime] is written at most once:
    a recorded time is never replaced, and it is recorded only together with
    a non-empty assignment. *)
Theorem builders_keep_entry (s : DiscoveryServer) (w : World) (push : PushContext)
    (clusterName : string) (edsCluster : EdsCluster) (now : Z) :
  keepsEntry now edsCluster
    (snd (fst (updateCluster w push clusterName edsCluster now)))
  /\ keepsEntry now edsCluster
       (snd (fst (updateClusterInc s w push clusterName edsCluster now))).
Proof.
  split; [apply updateCluster_keepsEntry|apply updateClusterInc_keepsEntry].
Qed.

(** ** Service port updates *)

Lemma SvcUpdate_ports (ports : gmap string Z) (acc : PortList)
    (kvs : list (string * Z)) :
  fold_left (fun pl kv => pl ++ [portOf kv]) kvs acc = acc ++ map portOf kvs.
Proof.
  revert acc. induction kvs as [|kv kvs IH]; intros acc; cbn.
  - by rewrite app_nil_r.
  - by rewrite IH, <- app_assoc.
Qed.

(** X19: An update from the primary cluster (empty cluster id) replaces the port
    list of the host by one port per entry of [ports]: a (name, number) pair
    is in the new list exactly when [ports] maps the name to the number, so
    [GetByPort] finds a port for a number exactly when some name maps to it,
    and the port found carries that number and one of those names. The port
    lists of the other hosts stay. An update from any other cluster changes
    nothing. *)
Theorem SvcUpdate_port_list (pc : PushContext) (cluster hostname : string)
    (ports : gmap string Z) (rports : gmap Z string) :
  (cluster <> "" -> SvcUpdate pc cluster hostname ports rports = pc)
  /\ (cluster = "" ->
      let pc' := SvcUpdate pc cluster hostname ports rports in
      Services pc' = Services pc
      /\ (forall h, h <> hostname ->
            ServicePort2Name pc' !! h = ServicePort2Name pc !! h)
      /\ exists pl,
           ServicePort2Name pc' !! hostname = Some pl
           /\ (forall name num,
                 (exists p, p ∈ pl /\ Port_Name p = name /\ Port_Port p = num)
                 <-> ports !! name = Some num)
           /\ (forall num,
                 match GetByPort pl num with
                 | Some p => Port_Port p = num /\ ports !! Port_Name p = Some num
                 | None => forall name, ports !! name <> Some num
                 end)).
Proof.
  unfold SvcUpdate. split.
  - intros Hc. by rewrite bool_decide_eq_false_2.
  - intros ->. rewrite bool_decide_eq_true_2 by done. cbn zeta.
    cbn [Services ServicePort2Name]. split; [done|]. split.
    { intros h Hh. by rewrite lookup_insert_ne. }
    rewrite lookup_insert_eq. eexists. split; [reflexivity|].
    rewrite (SvcUpdate_ports ports). cbn [app].
    assert (Hin : forall name num,
              (exists p, p ∈ map portOf (rangeMap ports)
                         /\ Port_Name p = name /\ Port_Port p = num)
              <-> ports !! name = Some num).
    { intros name num. split.
      - intros (p & Hp & <- & <-).
        apply list_elem_of_In, in_map_iff in Hp as ([k v] & <- & Hkv).
        by apply list_elem_of_In, elem_of_rangeMap in Hkv.
      - intros H. exists (portOf (name, num)). split; [|done].
        apply list_elem_of_In, in_map_iff. exists (name, num). split; [done|].
        by apply list_elem_of_In, elem_of_rangeMap. }
    split; [exact Hin|].
    intros num. unfold GetByPort.
    destruct (List.find _ (map portOf (rangeMap ports))) as [p|] eqn:Hf.
    + apply find_some in Hf as [Hp Hnum]. apply bool_decide_eq_true in Hnum.
      split; [done|]. apply Hin. exists p. split; [by apply list_elem_of_In|done].
    + intros name Hname. apply Hin in Hname as (p & Hp & _ & Hnum).
      apply list_elem_of_In in Hp. apply (find_none _ _ Hf) in Hp.
      by rewrite bool_decide_eq_true_2 in Hp.
Qed.

(** ** Incremental push: which clusters are rebuilt *)

Lemma edsIncremental_fold (push : PushContext) (now : string -> Z)
    (kvs : list (string * EdsCluster))
    (acc : DiscoveryServer * World * gmap string EdsCluster) (k : string) :
  NoDup (kvs.*1) ->
  (k ∉ kvs.*1 ->
   snd (fold_left (edsIncrementalCluster push now) kvs acc) !! k = snd acc !! k)
  /\ (forall c, (k, c) ∈ kvs ->
        exists c', snd (fold_left (edsIncrementalCluster push now) kvs acc) !! k
                   = Some c'
                   /\ keepsEntry (now k) c c').
Proof.
  revert acc. induction kvs as [|[k0 c0] kvs IH]; intros acc Hnd.
  - split; [done|]. intros c Hin. by apply elem_of_nil in Hin.
  - apply NoDup_cons in Hnd as [Hk0 Hnd]. cbn [fold_left].
    destruct acc as [[s w] clusters].
    pose proof (updateClusterInc_keepsEntry s w push k0 c0 (now k0)) as Hkeep.
    unfold edsIncrementalCluster at 2 4. cbn [fst snd].
    destruct (updateClusterInc s w push k0 c0 (now k0)) as [[[s' w'] c0'] err].
    cbn [fst snd] in Hkeep.
    destruct (IH (s', w', <[k0 := c0']> clusters) Hnd) as [IH1 IH2]. split.
    + intros Hk. rewrite IH1.
      * cbn [snd]. rewrite lookup_insert_ne; [done|].
        intros ->. apply Hk. cbn. by left.
      * intros Hin. apply Hk. cbn. by right.
    + intros c Hin. apply elem_of_cons in Hin as [[= -> ->]|Hin].
      * exists c0'. split; [|exact Hkeep].
        rewrite IH1 by done. cbn [snd]. by rewrite lookup_insert_eq.
      * by apply IH2.
Qed.

(** X25: [edsIncremental] rebuilds the clusters of the updated services and no
    other: a cluster whose hostname is not in the update set keeps its entry
    as it is; a cluster whose hostname is in the set keeps its subscribers
    and its time of first use, whatever the build does; no entry is added to
    or removed from the registry. *)
Theorem edsIncremental_clusters (s : DiscoveryServer) (w : World)
    (edsClusters : gmap string EdsCluster) (push : PushContext)
    (edsUpdates : gset string) (now : string -> Z) (clusterName : string) :
  let clusters' := snd (edsIncremental s w edsClusters push edsUpdates now) in
  match edsClusters !! clusterName with
  | None => clusters' !! clusterName = None
  | Some c =>
      if bool_decide (hostnameOf clusterName ∈ edsUpdates)
      then exists c', clusters' !! clusterName = Some c'
                      /\ keepsEntry (now clusterName) c c'
      else clusters' !! clusterName = Some c
  end.
Proof.
  cbn zeta. unfold edsIncremental.
  set (cMap := filter (fun kv : string * EdsCluster => hostnameOf (fst kv) ∈ edsUpdates)
                      edsClusters).
  destruct (edsIncremental_fold push now (rangeMap cMap) (s, w, edsClusters)
              clusterName (NoDup_rangeMap_keys cMap)) as [Hout Hin].
  assert (Hkeys : forall c, (clusterName, c) ∈ rangeMap cMap
                  <-> edsClusters !! clusterName = Some c
                      /\ hostnameOf clusterName ∈ edsUpdates).
  { intros c. rewrite elem_of_rangeMap. subst cMap.
    by rewrite map_lookup_filter_Some. }
  assert (Hnotin : cMap !! clusterName = None -> clusterName ∉ (rangeMap cMap).*1).
  { intros Hnone Hel. apply list_elem_of_fmap in Hel as ([k c] & -> & Hel).
    apply elem_of_rangeMap in Hel. cbn in Hnone. congruence. }
  destruct (edsClusters !! clusterName) as [c|] eqn:Hc.
  - destruct (bool_decide_reflect (hostnameOf clusterName ∈ edsUpdates)) as [Hu|Hu].
    + apply Hin, Hkeys. done.
    + rewrite Hout; [done|]. apply Hnotin. subst cMap.
      apply map_lookup_filter_None. right. intros c1 Hc1. cbn. done.
  - rewrite Hout; [done|]. apply Hnotin. subst cMap.
    apply map_lookup_filter_None. by left.
Qed.

(** ** Push to one connection *)

(** What one step of the push loop leaves of the registry: entries under
    other names are untouched, and the named entry, if there is one, keeps
    its subscribers and its time of first use. *)
Lemma pushEdsCluster_frame (push : PushContext)
    (edsUpdatedServices : option (gset string))
    (filters : list (list LocalityLbEndpoints -> XdsConnection -> list LocalityLbEndpoints))
    (con : XdsConnection) (now : string -> Z)
    (w : World) (clusters : gmap string EdsCluster)
    (resAny : list ClusterLoadAssignment) (clusterName : string) :
  let clusters' :=
    snd (fst (pushEdsCluster push edsUpdatedServices filters con now
                (w, clusters, resAny) clusterName)) in
  (forall k, k <> clusterName -> clusters' !! k = clusters !! k)
  /\ match clusters !! clusterName with
     | None => clusters' !! clusterName = None
     | Some c => exists c', clusters' !! clusterName = Some c'
                            /\ EdsClients c' = EdsClients c
                            /\ FirstUse c' = FirstUse c
     end.
Proof.
  cbn zeta. unfold pushEdsCluster, getEdsCluster.
  destruct (match edsUpdatedServices with
            | Some updated => negb (bool_decide (hostnameOf clusterName ∈ updated))
            | None => false
            end).
  { cbn [fst snd]. split; [done|]. destruct (clusters !! clusterName); eauto. }
  destruct (clusters !! clusterName) as [c|] eqn:Hc; [|by cbn].
  destruct (LoadAssignment c) as [l|] eqn:Hl.
  - destruct (0 <? length filters)%nat; cbn [fst snd].
    + split; [intros k Hk; by rewrite lookup_insert_ne|].
      exists c. by rewrite lookup_insert_eq.
    + split; [intros k Hk; by rewrite lookup_insert_ne|].
      eexists. rewrite lookup_insert_eq. done.
  - pose proof (updateCluster_keepsEntry w push clusterName c (now clusterName))
      as (Hcl & Hfu & _).
    destruct (updateCluster w push clusterName c (now clusterName))
      as [[w' c'] err]. cbn [fst snd] in Hcl, Hfu.
    destruct err as [e|].
    + cbn [fst snd]. split; [intros k Hk; by rewrite lookup_insert_ne|].
      exists c'. by rewrite lookup_insert_eq.
    + destruct (LoadAssignment c') as [l'|].
      * destruct (0 <? length filters)%nat; cbn [fst snd].
        -- split; [intros k Hk; by rewrite lookup_insert_ne|].
           exists c'. by rewrite lookup_insert_eq.
        -- split; [intros k Hk; by rewrite lookup_insert_ne|].
           eexists. rewrite lookup_insert_eq. done.
      * cbn [fst snd]. split; [intros k Hk; by rewrite lookup_insert_ne|].
        exists c'. by rewrite lookup_insert_eq.
Qed.


Lemma pushEds_fold_frame (push : PushContext)
    (edsUpdatedServices : option (gset string))
    (filters : list (list LocalityLbEndpoints -> XdsConnection -> list LocalityLbEndpoints))
    (con : XdsConnection) (now : string -> Z) (names : list string)
    (acc : World * gmap string EdsCluster * list ClusterLoadAssignment) (k : string) :
  let clusters' :=
    snd (fst (fold_left (pushEdsCluster push edsUpdatedServices filters con now)
                        names acc)) in
  (k ∉ names -> clusters' !! k = snd (fst acc) !! k)
  /\ match snd (fst acc) !! k with
     | None => clusters' !! k = None
     | Some c => exists c', clusters' !! k = Some c'
                            /\ EdsClients c' = EdsClients c
                            /\ FirstUse c' = FirstUse c
     end.
Proof.
  cbn zeta. revert acc. induction names as [|name names IH]; intros acc.
  - cbn [fold_left]. split; [done|]. destruct (snd (fst acc) !! k); eauto.
  - cbn [fold_left]. destruct acc as [[w clusters] resAny].
    destruct (pushEdsCluster_frame push edsUpdatedServices filters con now
                w clusters resAny name) as [Hother Hname].
    destruct (IH (pushEdsCluster push edsUpdatedServices filters con now
                    (w, clusters, resAny) name)) as [IH1 IH2].
    cbn [fst snd] in *. split.
    + intros Hk. rewrite IH1 by (intros ?; apply Hk; by right).
      apply Hother. intros ->. apply Hk. by left.
    + destruct (decide (k = name)) as [->|Hne].
      * destruct (clusters !! name) as [c|].
        -- destruct Hname as (c1 & Hc1 & Hcl1 & Hfu1). rewrite Hc1 in IH2.
           destruct IH2 as (c' & Hc' & Hcl & Hfu). exists c'.
           split; [done|]. split; congruence.
        -- by rewrite Hname in IH2.
      * by rewrite (Hother k Hne) in IH2.
Qed.


(** X26: A push to a connection never changes who watches what: the registry has
    the same cluster names afterwards, every entry keeps its subscribers and
    its time of first use, and the entries of clusters the connection does not
    watch are untouched. *)
Theorem pushEds_keeps_registry (w : World) (edsClusters : gmap string EdsCluster)
    (pushes : gmap string Z) (push : PushContext) (Clusters : list string)
    (con : XdsConnection) (send : DiscoveryResponse -> option Error)
    (edsUpdatedServices : option (gset string))
    (filters : list (list LocalityLbEndpoints -> XdsConnection -> list LocalityLbEndpoints))
    (versionInfo nonce : string) (now : string -> Z) (k : string) :
  let clusters' :=
    snd (fst (fst (pushEds w edsClusters pushes push Clusters con send
                     edsUpdatedServices filters versionInfo nonce now))) in
  match edsClusters !! k with
  | None => clusters' !! k = None
  | Some c => exists c', clusters' !! k = Some c'
                         /\ EdsClients c' = EdsClients c
                         /\ FirstUse c' = FirstUse c
                         /\ (k ∉ Clusters -> c' = c)
  end.
Proof.
  cbn zeta. unfold pushEds.
  destruct (pushEds_fold_frame push edsUpdatedServices filters con now Clusters
              (w, edsClusters, []) k) as [Hout Hin].
  destruct (fold_left _ Clusters (w, edsClusters, [])) as [[w' clusters'] resAny].
  cbn [fst snd] in *.
  assert (Hsame : snd (fst (fst
            match send (endpoints versionInfo nonce resAny) with
            | Some err => (w', clusters', countPush pushes "eds_senderr", Some err)
            | None => (w', clusters', countPush pushes "eds", None)
            end)) = clusters').
  { by destruct (send (endpoints versionInfo nonce resAny)). }
  rewrite Hsame. destruct (edsClusters !! k) as [c|]; [|done].
  destruct Hin as (c' & Hc' & Hcl & Hfu). exists c'.
  repeat split; try done. intros Hk. specialize (Hout Hk). congruence.
Qed.





(** ** Conversion of a registry endpoint *)

(** X7: [networkEndpointToEnvoyEndpoint] fails exactly when the address fails
    validation, with the validation error. Otherwise the wire endpoint has
    the address [GetNetworkEndpointAddress] gives, and its metadata holds,
    under ["istio"], the field [uid] iff the UID is non-empty and the field
    [network] iff the network is non-empty, and no other field; there is no
    metadata at all iff both are empty. *)
Theorem networkEndpointToEnvoyEndpoint_result (e : NetworkEndpoint) :
  match ValidateNetworkEndpointAddress e with
  | Some err => networkEndpointToEnvoyEndpoint e = Err err
  | None =>
      exists ep,
        networkEndpointToEnvoyEndpoint e = Ok ep
        /\ Endpoint_Address ep = GetNetworkEndpointAddress e
        /\ (forall k, istioField ep k
                      = if bool_decide (k = "uid" /\ NE_UID e <> "")
                        then Some (NE_UID e)
                        else if bool_decide (k = "network" /\ NE_Network e <> "")
                             then Some (NE_Network e) else None)
        /\ (Endpoint_Metadata ep = None <-> NE_UID e = "" /\ NE_Network e = "")
  end.
Proof.
  unfold networkEndpointToEnvoyEndpoint.
  destruct (ValidateNetworkEndpointAddress e); [reflexivity|].
  eexists. split; [reflexivity|]. split; [reflexivity|].
  unfold istioField, setIstioField. cbn [Endpoint_Metadata].
  destruct (bool_decide_reflect (NE_UID e <> "")) as [Hu|Hu];
    destruct (bool_decide_reflect (NE_Network e <> "")) as [Hn|Hn].
  - rewrite bool_decide_eq_true_2 by tauto. cbn [fmap option_fmap option_map].
    rewrite !alter_singleton_eq. split; [|split; [discriminate|tauto]].
    intros k. rewrite lookup_singleton_eq, !lookup_insert, lookup_empty.
    destruct (decide ("network" = k)) as [<-|Hk1].
    + rewrite bool_decide_eq_false_2 by (intros [? _]; done).
      by rewrite bool_decide_eq_true_2.
    + destruct (decide ("uid" = k)) as [<-|Hk2].
      * by rewrite bool_decide_eq_true_2.
      * rewrite !bool_decide_eq_false_2; [done| |]; intros [? _]; by subst.
  - rewrite bool_decide_eq_true_2 by tauto. cbn [fmap option_fmap option_map].
    rewrite !alter_singleton_eq. split; [|split; [discriminate|tauto]].
    intros k. rewrite lookup_singleton_eq, !lookup_insert, lookup_empty.
    rewrite (bool_decide_eq_false_2 (k = "network" /\ _)) by tauto.
    destruct (decide ("uid" = k)) as [<-|Hk2].
    + by rewrite bool_decide_eq_true_2.
    + rewrite bool_decide_eq_false_2; [done|]. intros [? _]; by subst.
  - rewrite bool_decide_eq_true_2 by tauto. cbn [fmap option_fmap option_map].
    rewrite !alter_singleton_eq. split; [|split; [discriminate|tauto]].
    intros k. rewrite lookup_singleton_eq, !lookup_insert, lookup_empty.
    rewrite (bool_decide_eq_false_2 (k = "uid" /\ _)) by tauto.
    destruct (decide ("network" = k)) as [<-|Hk1].
    + by rewrite bool_decide_eq_true_2.
    + rewrite bool_decide_eq_false_2; [done|]. intros [? _]; by subst.
  - rewrite bool_decide_eq_false_2 by tauto. split.
    + intros k. rewrite !bool_decide_eq_false_2; [done| |]; tauto.
    + split; [|done]. intros _. split.
      * destruct (decide (NE_UID e = "")); [done|]. by destruct Hu.
      * destruct (decide (NE_Network e = "")); [done|]. by destruct Hn.
Qed.
End Builders.

(** * Properties *)

(** ** Endpoint update interface *)

(** C10: [EDSUpdate] returns the nil error for every shard, service name and
    endpoint list. *)
Theorem EDSUpdate_returns_nil (s : DiscoveryServer) (shard serviceName : string)
    (entries : list IstioEndpoint) :
  snd (EDSUpdate s shard serviceName entries) = None.
Proof. reflexivity. Qed.

(** ** Shard store: push classification *)

Lemma edsUpdate_loop (accounts : gset string) (internal : bool)
    (entries ce : list IstioEndpoint) (rf : bool) :
  exists rf',
    fold_left (edsUpdateEntry accounts internal) entries (ce, rf) = (ce ++ entries, rf')
    /\ (rf' = true <->
        rf = true \/ (internal = false /\ exists e, e ∈ entries /\ introducesAccount accounts e)).
Proof.
  revert ce rf. induction entries as [|e entries IH]; intros ce rf; simpl.
  - exists rf. rewrite app_nil_r. split; [reflexivity|].
    split; [auto|]. intros [H|[_ [e [He _]]]]; [exact H|]. inversion He.
  - destruct (IH (ce ++ [e])
      (if bool_decide (IE_ServiceAccount e <> "") then
         if negb (bool_decide (IE_ServiceAccount e ∈ accounts)) && negb internal
         then true else rf
       else rf)) as (rf' & Hfold & Hrf).
    exists rf'. rewrite Hfold, <- app_assoc. split; [reflexivity|].
    rewrite Hrf. unfold introducesAccount. clear.
    destruct (bool_decide_reflect (IE_ServiceAccount e <> "")) as [Hne|He];
      [destruct (bool_decide_reflect (IE_ServiceAccount e ∈ accounts)) as [Hin|Hnin];
       [|destruct internal]|]; simpl.
    + split.
      * intros [H|(Hi & x & Hx & Hnew)]; [by left|].
        right. split; [done|]. exists x. split; [by right|done].
      * intros [H|(Hi & x & Hx & Hne' & Hnin)]; [by left|].
        apply elem_of_cons in Hx as [->|Hx]; [done|].
        right. split; [done|]. by exists x.
    + split.
      * intros [H|(Hi & _)]; [by left|done].
      * intros [H|(Hi & _)]; [by left|done].
    + split; [|by left]. intros _. right. split; [done|].
      exists e. split; [by left|done].
    + split.
      * intros [H|(Hi & x & Hx & Hnew)]; [by left|].
        right. split; [done|]. exists x. split; [by right|done].
      * intros [H|(Hi & x & Hx & Hne' & Hnin)]; [by left|].
        apply elem_of_cons in Hx as [->|Hx]; [by destruct He|].
        right. split; [done|]. by exists x.
Qed.

Lemma edsUpdate_unfold (s : DiscoveryServer) (shard serviceName : string)
    (entries : list IstioEndpoint) (internal : bool) :
  exists full,
    edsUpdate s shard serviceName entries internal =
      {| s_EndpointShardsByService :=
           <[serviceName :=
               {| Shards := <[shard := {| Shard := shard; Entries := entries |}]>
                              (match s_EndpointShardsByService s !! serviceName with
                               | Some ep => Shards ep
                               | None => ∅
                               end);
                  ServiceAccounts := knownAccounts s serviceName |}]>
             (s_EndpointShardsByService s);
         edsUpdates := {[serviceName]} ∪ edsUpdates s;
         ConfigUpdates := ConfigUpdates s ++ [full] |}
    /\ (full = true <->
        internal = false /\
        (s_EndpointShardsByService s !! serviceName = None \/
         exists e, e ∈ entries /\ introducesAccount (knownAccounts s serviceName) e)).
Proof.
  unfold edsUpdate, knownAccounts.
  destruct (s_EndpointShardsByService s !! serviceName) as [ep|] eqn:Hlk.
  - destruct (edsUpdate_loop (ServiceAccounts ep) internal entries [] false)
      as (rf & Hfold & Hrf).
    rewrite Hfold. exists rf. split; [by destruct rf|].
    rewrite Hrf. split.
    + intros [H|[Hi Hex]]; [done|]. split; [done|]. by right.
    + intros [Hi [H|Hex]]; [done|]. right. by split.
  - destruct (edsUpdate_loop (∅ : gset string) internal entries [] (negb internal))
      as (rf & Hfold & Hrf).
    cbn [ServiceAccounts Shards]. rewrite Hfold. exists rf.
    split; [by destruct rf|].
    rewrite Hrf. split.
    + intros [H|[Hi Hex]].
      * split; [by destruct internal|by left].
      * split; [done|by right].
    + intros [Hi _]. left. by rewrite Hi.
Qed.

(** C4 (as amended): every [edsUpdate] issues exactly one [ConfigUpdate]; it
    is a full push exactly when [internal] is false and either the service
    was unknown or some entry carries a non-empty service account that is not
    in the service's recorded set; in every other case (in particular a known
    service without a new account, and every internal update) it is an
    incremental push. *)
Theorem edsUpdate_push_signal (s : DiscoveryServer) (shard serviceName : string)
    (entries : list IstioEndpoint) (internal : bool) :
  exists full : bool,
    ConfigUpdates (edsUpdate s shard serviceName entries internal)
      = ConfigUpdates s ++ [full]
    /\ (full = true <->
        internal = false /\
        (s_EndpointShardsByService s !! serviceName = None \/
         exists e, e ∈ entries /\ introducesAccount (knownAccounts s serviceName) e)).
Proof.
  destruct (edsUpdate_unfold s shard serviceName entries internal) as (full & -> & H).
  exists full. split; [reflexivity|exact H].
Qed.

(** C4 (as stated) fails for an internal update: a known service with
    accounts {a} receives an entry with account b, yet the update signals an
    incremental push. *)
Lemma edsUpdate_internal_new_account_no_full_push :
  ~ ((exists e, e ∈ [endpointWithAccount "b"]
                /\ introducesAccount (knownAccounts serverWithAccountA "svc.ns") e)
     -> last (ConfigUpdates
                (edsUpdate serverWithAccountA "r1" "svc.ns"
                           [endpointWithAccount "b"] true)) = Some true).
Proof.
  intros H.
  assert (Hpre : exists e, e ∈ [endpointWithAccount "b"]
                 /\ introducesAccount (knownAccounts serverWithAccountA "svc.ns") e).
  { exists (endpointWithAccount "b"). split; [by left|].
    split; [discriminate|].
    unfold knownAccounts, serverWithAccountA. cbn [s_EndpointShardsByService].
    rewrite lookup_singleton_eq. cbn. intros Hin.
    apply elem_of_singleton in Hin. discriminate. }
  specialize (H Hpre). vm_compute in H. discriminate.
Qed.

(** ** Shard store: the service-account set *)

Lemma serviceAccountsOf_edsUpdate (s : DiscoveryServer) (shard serviceName : string)
    (entries : list IstioEndpoint) (internal : bool) (name : string) :
  serviceAccountsOf (edsUpdate s shard serviceName entries internal) name =
    if decide (name = serviceName) then Some (knownAccounts s serviceName)
    else serviceAccountsOf s name.
Proof.
  destruct (edsUpdate_unfold s shard serviceName entries internal) as (full & -> & _).
  unfold serviceAccountsOf. cbn [s_EndpointShardsByService].
  destruct (decide (name = serviceName)) as [->|Hne].
  - by rewrite lookup_insert_eq.
  - by rewrite lookup_insert_ne.
Qed.

Lemma knownAccounts_serviceAccountsOf (s : DiscoveryServer) (name : string) :
  knownAccounts s name = default ∅ (serviceAccountsOf s name).
Proof.
  unfold knownAccounts, serviceAccountsOf.
  by destruct (s_EndpointShardsByService s !! name).
Qed.

(** C2 (as amended): shard updates never write the service-account set.
    After any sequence of shard updates, a service that was known before the
    sequence has the set it had before, and a service created by the
    sequence has the empty set, whatever accounts its shards carry. *)
Theorem runUpdates_serviceAccounts (us : list ShardUpdate) (s : DiscoveryServer)
    (name : string) :
  serviceAccountsOf (runUpdates s us) name =
    match serviceAccountsOf s name with
    | Some accounts => Some accounts
    | None => if bool_decide (name ∈ map su_service us) then Some ∅ else None
    end.
Proof.
  revert s. induction us as [|u us IH]; intros s.
  - cbn. by destruct (serviceAccountsOf s name).
  - cbn [runUpdates fold_left map]. fold (runUpdates (applyUpdate s u) us).
    rewrite IH. unfold applyUpdate. rewrite serviceAccountsOf_edsUpdate.
    rewrite knownAccounts_serviceAccountsOf.
    destruct (decide (name = su_service u)) as [->|Hne].
    + destruct (serviceAccountsOf s (su_service u)); cbn; [done|].
      rewrite bool_decide_eq_true_2; [done|by left].
    + destruct (serviceAccountsOf s name); [done|].
      destruct (bool_decide_reflect (name ∈ map su_service us)) as [Hin|Hnin].
      * rewrite bool_decide_eq_true_2; [done|by right].
      * rewrite bool_decide_eq_false_2; [done|].
        intros [?|?]%elem_of_cons; done.
Qed.

(** C2 (as stated) fails: from a service with accounts {a}, a shard update
    that brings an endpoint with account b leaves the set at {a}, not {a,b},
    although the new shard carries b. *)
Lemma edsUpdate_new_account_not_recorded :
  ~ (serviceAccountsOf
       (edsUpdate serverWithAccountA "r1" "svc.ns" [endpointWithAccount "b"] false)
       "svc.ns" = Some {[ "a"; "b" ]}).
Proof.
  rewrite serviceAccountsOf_edsUpdate.
  rewrite decide_True by reflexivity.
  unfold knownAccounts, serverWithAccountA. cbn [s_EndpointShardsByService].
  rewrite lookup_singleton_eq. cbn [ServiceAccounts].
  intros H. apply (inj Some) in H.
  assert (Hb : "b" ∈ ({[ "a" ]} : gset string)) by (rewrite H; set_solver).
  apply elem_of_singleton in Hb. discriminate.
Qed.

(** The union over the shards does contain b after that update. *)
Lemma edsUpdate_new_account_in_shards :
  exists ep,
    s_EndpointShardsByService
      (edsUpdate serverWithAccountA "r1" "svc.ns" [endpointWithAccount "b"] false)
      !! "svc.ns" = Some ep
    /\ "b" ∈ accountsOfShards ep /\ "b" ∉ ServiceAccounts ep.
Proof.
  destruct (edsUpdate_unfold serverWithAccountA "r1" "svc.ns"
              [endpointWithAccount "b"] false) as (full & -> & _).
  cbn [s_EndpointShardsByService]. rewrite lookup_insert_eq.
  eexists. split; [reflexivity|].
  unfold knownAccounts, serverWithAccountA. cbn [s_EndpointShardsByService].
  rewrite lookup_singleton_eq. cbn [ServiceAccounts Shards].
  split.
  - unfold accountsOfShards. cbn [Shards].
    rewrite insert_empty, map_fold_singleton. cbn. set_solver.
  - intros Hb. apply elem_of_singleton in Hb. discriminate.
Qed.

(** ** Cluster registry *)

Lemma removeEdsCon_stale (edsClusters : gmap string EdsCluster)
    (clusterName node : string) (connection : XdsConnection) :
  clientOf edsClusters clusterName node <> Some connection ->
  removeEdsCon edsClusters clusterName node connection = edsClusters.
Proof.
  unfold clientOf, removeEdsCon, getEdsCluster. intros H.
  destruct (edsClusters !! clusterName) as [c|]; [|done].
  destruct (EdsClients c !! node) as [old|]; [|done].
  rewrite bool_decide_eq_true_2; [done|]. congruence.
Qed.

Lemma removeEdsCon_live (edsClusters : gmap string EdsCluster)
    (clusterName node : string) (connection : XdsConnection) (c : EdsCluster) :
  edsClusters !! clusterName = Some c ->
  EdsClients c !! node = Some connection ->
  removeEdsCon edsClusters clusterName node connection =
    if bool_decide (size (delete node (EdsClients c)) = 0%nat)
    then delete clusterName edsClusters
    else <[clusterName := set_clients c (delete node (EdsClients c))]> edsClusters.
Proof.
  unfold removeEdsCon, getEdsCluster. intros -> ->.
  rewrite bool_decide_eq_false_2; [done|]. intros H. by apply H.
Qed.

(** C8: [removeEdsCon] changes the registry only when the handle passed is
    the one recorded for the node: with any other handle (a stale one, or no
    recorded client at all) the registry is left as it is, so the live
    connection stays. When the handle matches, the node's record is deleted,
    the records of the other nodes stay, and if the cluster's client set
    becomes empty the cluster entry is deleted, so that [getEdsCluster]
    returns nil. *)
Theorem removeEdsCon_spec (edsClusters : gmap string EdsCluster)
    (clusterName node : string) (connection : XdsConnection) :
  (clientOf edsClusters clusterName node <> Some connection ->
   removeEdsCon edsClusters clusterName node connection = edsClusters)
  /\ (clientOf edsClusters clusterName node = Some connection ->
      let after := removeEdsCon edsClusters clusterName node connection in
      clientOf after clusterName node = None
      /\ (forall node', node' <> node ->
            clientOf after clusterName node' = clientOf edsClusters clusterName node')
      /\ ((forall node', node' <> node -> clientOf edsClusters clusterName node' = None)
          -> getEdsCluster after clusterName = None)).
Proof.
  split; [apply removeEdsCon_stale|].
  unfold clientOf at 1. intros H.
  destruct (edsClusters !! clusterName) as [c|] eqn:Hc; [|done].
  cbn zeta. rewrite (removeEdsCon_live _ _ _ _ c Hc H).
  destruct (bool_decide_reflect (size (delete node (EdsClients c)) = 0%nat)) as [He|Hne].
  - apply map_size_empty_inv in He.
    unfold clientOf, getEdsCluster. rewrite lookup_delete_eq, Hc.
    split; [done|]. split; [|done].
    intros node' Hn. rewrite <- (lookup_delete_ne (EdsClients c) node node') by done.
    by rewrite He, lookup_empty.
  - unfold clientOf, getEdsCluster. rewrite lookup_insert_eq, Hc. cbn [EdsClients set_clients].
    split; [by rewrite lookup_delete_eq|]. split.
    + intros node' Hn. by rewrite lookup_delete_ne.
    + intros Hothers. exfalso. apply Hne.
      apply map_size_empty_iff, map_eq. intros i. rewrite lookup_empty.
      destruct (decide (i = node)) as [->|Hi].
      * by rewrite lookup_delete_eq.
      * rewrite lookup_delete_ne by done. apply (Hothers i Hi).
Qed.

(** C8 at a concrete registry: the stale handle 1 does not remove the live
    connection 2 of node n1; the live handle does, and, n1 being the last
    subscriber, the cluster entry is gone afterwards. *)
Lemma removeEdsCon_spec_witness :
  let reg : gmap string EdsCluster :=
    {[ "outbound|80||svc.ns" := clusterWithClients {[ "n1" := 2%nat ]} ]} in
  removeEdsCon reg "outbound|80||svc.ns" "n1" 1%nat = reg
  /\ getEdsCluster (removeEdsCon reg "outbound|80||svc.ns" "n1" 2%nat)
       "outbound|80||svc.ns" = None.
Proof.
  intros reg.
  assert (Hc : clientOf reg "outbound|80||svc.ns" "n1" = Some 2%nat)
    by (vm_compute; reflexivity).
  split.
  - apply (proj1 (removeEdsCon_spec reg "outbound|80||svc.ns" "n1" 1%nat)).
    rewrite Hc. discriminate.
  - apply (proj2 (removeEdsCon_spec reg "outbound|80||svc.ns" "n1" 2%nat) Hc).
    intros node' Hn. unfold clientOf, reg, clusterWithClients.
    rewrite lookup_singleton_eq. cbn [EdsClients].
    by rewrite lookup_singleton_ne.
Defined.

(** Scenario S6: two connections subscribe to one cluster and both leave;
    after the second removal the cluster entry is gone. *)
Example last_subscriber_leaves :
  let c := "outbound|80||svc.ns" in
  let reg1 := addEdsCon (addEdsCon ∅ c "n1" 1%nat 100) c "n2" 2%nat 101 in
  let reg2 := removeEdsCon reg1 c "n1" 1%nat in
  let reg3 := removeEdsCon reg2 c "n2" 2%nat in
  (exists e, getEdsCluster reg2 c = Some e /\ EdsClients e = {[ "n2" := 2%nat ]})
  /\ getEdsCluster reg3 c = None.
Proof.
  cbn zeta. split.
  - eexists. split; [vm_compute; reflexivity|]. vm_compute. reflexivity.
  - vm_compute. reflexivity.
Qed.

(** ** Wire endpoint metadata *)

(** What [buildEnvoyLbEndpoint] writes: the metadata exists exactly when the
    UID is non-empty, and then it holds both fields, whatever the network. *)
Lemma buildEnvoyLbEndpoint_metadata (UID : string) (family : AddressFamily)
    (address : string) (port : Z) (network : string) :
  let ep := buildEnvoyLbEndpoint UID family address port network in
  (UID <> "" ->
     istioField ep "uid" = Some UID /\ istioField ep "network" = Some network)
  /\ (UID = "" -> Endpoint_Metadata ep = None).
Proof.
  cbn zeta. unfold istioField, buildEnvoyLbEndpoint. cbn [Endpoint_Metadata].
  split.
  - intros H. rewrite bool_decide_eq_true_2 by done.
    rewrite lookup_singleton_eq. split.
    + by rewrite lookup_insert_eq.
    + rewrite lookup_insert_ne by done. by rewrite lookup_singleton_eq.
  - intros ->. reflexivity.
Qed.

(** C3 at its failing inputs, on the incremental path: an endpoint with a
    network and no UID gets no metadata at all, and an endpoint with a UID
    and no network gets a [network] field holding the empty string. *)
Theorem buildEnvoyLbEndpoint_network_field :
  Endpoint_Metadata
    (buildEnvoyLbEndpoint "" AddressFamilyTCP "10.0.0.1" 80 "network1") = None
  /\ istioField
       (buildEnvoyLbEndpoint "" AddressFamilyTCP "10.0.0.1" 80 "network1")
       "network" = None
  /\ istioField
       (buildEnvoyLbEndpoint "uid1" AddressFamilyTCP "10.0.0.1" 80 "")
       "network" = Some "".
Proof. repeat split; vm_compute; reflexivity. Qed.

(** ** Weight normalizer *)

Example normalize_2_1_1 :
  map GetWeight (normalizeLoadBalancingWeight [group 2; group 1; group 1])
  = [64; 32; 32].
Proof. vm_compute. reflexivity. Qed.

Example normalize_zero_total :
  normalizeLoadBalancingWeight [group 0; emptyLocalityLbEndpoints]
  = [group 0; emptyLocalityLbEndpoints].
Proof. vm_compute. reflexivity. Qed.

(** C1 at its failing input: a single group of raw weight 2^25. The product
    [raw * 128] wraps to 0 in [uint32], so the group is given weight 0, where
    [ceil(raw * 128 / T)] is 128. *)
Theorem normalizeLoadBalancingWeight_product_wraps :
  map GetWeight (normalizeLoadBalancingWeight [group 33554432]) = [0]
  /\ map GetWeight (normalizeExact [group 33554432]) = [128].
Proof. split; vm_compute; reflexivity. Qed.

(** C5 at its failing inputs: with raw weights 3 and 2^32 - 2 the [uint32]
    sum wraps to 1 and both output weights exceed 128; with a single group of
    raw weight 2^25 the output weight is 0, below 1. *)
Theorem normalizeLoadBalancingWeight_out_of_range :
  map GetWeight (normalizeLoadBalancingWeight [group 3; group 4294967294])
    = [384; 4294967040]
  /\ totalLbEndpointsNum [group 3; group 4294967294] = 1
  /\ map GetWeight (normalizeLoadBalancingWeight [group 33554432]) = [0].
Proof. repeat split; vm_compute; reflexivity. Qed.

(** ** Assignment builders at concrete inputs *)

Lemma sampleRange_Permutation (A : Type) (m : gmap string A) :
  sampleRange A m ≡ₚ map_to_list m.
Proof. reflexivity. Defined.

(** C6 on scenario S1: one shard with an endpoint in each of two zones. *)
Lemma updateClusterInc_assignment_witness :
  let svcPort := {| Port_Name := "http"; Port_Port := 80;
                    Port_Protocol := ProtocolOther "HTTP" |} in
  let labels := sampleSubsetToLabels samplePush "" "svc.ns" in
  let entries :=
    concat (map (fun kv => Entries (snd kv))
                (sampleRange EndpointShard (Shards sampleShards))) in
  let included := fun el : IstioEndpoint =>
    bool_decide (Port_Name svcPort = ServicePortName el)
    && HasSubsetOf labels (IE_Labels el) in
  let zoneLabel := fun el : IstioEndpoint =>
    default "" (IE_Labels el !! sampleAZLabel) in
  let endpointOf := fun el : IstioEndpoint =>
    match EnvoyEndpoint el with
    | Some ep => ep
    | None => buildEnvoyLbEndpoint (IE_UID el) (IE_Family el) (IE_Address el)
                (EndpointPort el) (IE_Network el)
    end in
  exists s' w' c' locEps,
    updateClusterInc sampleParseSubsetKey sampleSubsetToLabels sampleAZLabel
      sampleGetAZ sampleValidate sampleGetAddress failingRegistry sampleRange
      sampleServer emptyWorld samplePush "outbound|80||svc.ns"
      (freshCluster 100) 200 = (s', w', c', None)
    /\ LoadAssignment c'
       = Some {| ClusterName := "outbound|80||svc.ns"; Endpoints := locEps |}
    /\ (forall g, g ∈ locEps ->
          exists zone,
            LLE_Locality g = Some {| Region := ""; Zone := zone; SubZone := "" |}
            /\ LbEndpoints g
               = map endpointOf
                   (List.filter
                      (fun el => included el && bool_decide (zoneLabel el = zone))
                      entries)
            /\ LbEndpoints g <> []
            /\ LoadBalancingWeight g
               = Some (Z.of_nat (length (LbEndpoints g)) mod 2 ^ 32)
            /\ (Z.of_nat (length (LbEndpoints g)) < 2 ^ 32 ->
                LoadBalancingWeight g = Some (Z.of_nat (length (LbEndpoints g)))))
    /\ (forall el, el ∈ entries -> included el = true ->
          exists g, g ∈ locEps
                    /\ LLE_Locality g
                       = Some {| Region := ""; Zone := zoneLabel el; SubZone := "" |}
                    /\ endpointOf el ∈ LbEndpoints g)
    /\ NoDup (map LLE_Locality locEps).
Proof.
  intros svcPort.
  apply (updateClusterInc_assignment sampleParseSubsetKey sampleSubsetToLabels
           sampleAZLabel sampleGetAZ sampleValidate sampleGetAddress
           failingRegistry sampleRange sampleRange_Permutation
           sampleServer emptyWorld samplePush "outbound|80||svc.ns"
           (freshCluster 100) 200 TrafficDirectionOutbound "" "svc.ns" 80
           [svcPort] svcPort sampleShards).
  - reflexivity.
  - vm_compute. reflexivity.
  - vm_compute. reflexivity.
  - vm_compute. reflexivity.
Defined.

(** Scenario S1: two locality groups of raw weight 1, normalized to 64. *)
Example fresh_cluster_two_zones :
  let '(_, _, c, err) :=
    updateClusterInc sampleParseSubsetKey sampleSubsetToLabels sampleAZLabel
      sampleGetAZ sampleValidate sampleGetAddress failingRegistry sampleRange
      sampleServer emptyWorld samplePush "outbound|80||svc.ns"
      (freshCluster 100) 200 in
  err = None
  /\ (map (fun g => (LLE_Locality g, length (LbEndpoints g), GetWeight g))
          <$> (Endpoints <$> LoadAssignment c))
     = Some [ (Some (zoneLocality "us-east-1a"), 1%nat, 1);
              (Some (zoneLocality "us-east-1b"), 1%nat, 1) ]
  /\ (map GetWeight <$> (normalizeLoadBalancingWeight
                           <$> (Endpoints <$> LoadAssignment c)))
     = Some [64; 64].
Proof. vm_compute. repeat split; reflexivity. Qed.


(** Scenario S5: the port is missing from the push context; the assignment
    is built from the instances the registry returns, and the query is
    logged. *)
Example missing_port_name_full_path :
  let '(_, w, c, err) :=
    updateClusterInc sampleParseSubsetKey sampleSubsetToLabels sampleAZLabel
      sampleGetAZ sampleValidate sampleGetAddress sampleRegistry sampleRange
      sampleServer emptyWorld pushWithoutPorts "outbound|80||svc.ns"
      (freshCluster 100) 200 in
  err = None
  /\ registryQueries w = [("svc.ns", 80, ∅)]
  /\ (map (fun g => (LLE_Locality g, length (LbEndpoints g), GetWeight g))
          <$> (Endpoints <$> LoadAssignment c))
     = Some [ (Some (zoneLocality "us-east-1a"), 1%nat, 1);
              (Some (zoneLocality "us-east-1b"), 1%nat, 1) ].
Proof. vm_compute. repeat split; reflexivity. Qed.

(** C9 on a failing registry: the error comes back and the fresh cluster
    entry keeps its nil assignment. *)
Lemma updateCluster_error_keeps_assignment_witness :
  exists w',
    updateCluster sampleParseSubsetKey sampleSubsetToLabels sampleGetAZ
      sampleValidate sampleGetAddress failingRegistry sampleRange
      emptyWorld samplePush "outbound|80||svc.ns" (freshCluster 100) 200
    = (w', freshCluster 100, Some "registry unavailable").
Proof.
  apply (proj1 (updateCluster_error_keeps_assignment sampleParseSubsetKey
                  sampleSubsetToLabels sampleGetAZ sampleValidate sampleGetAddress
                  failingRegistry sampleRange
                  emptyWorld samplePush "outbound|80||svc.ns" (freshCluster 100) 200)
          TrafficDirectionOutbound "" "svc.ns" 80 "registry unavailable").
  - reflexivity.
  - reflexivity.
  - reflexivity.
Defined.

(** * Further properties

    ** Binary64 division of two [uint32] values *)

Lemma digits2_pos_bounds (p : positive) :
  2 ^ (Z.pos (digits2_pos p) - 1) <= Z.pos p < 2 ^ Z.pos (digits2_pos p).
Proof.
  induction p as [p IH|p IH|]; cbn [digits2_pos].
  - rewrite Pos2Z.inj_succ.
    replace (Z.succ (Z.pos (digits2_pos p)) - 1) with (Z.succ (Z.pos (digits2_pos p) - 1)) by lia.
    rewrite !Z.pow_succ_r by lia. lia.
  - rewrite Pos2Z.inj_succ.
    replace (Z.succ (Z.pos (digits2_pos p)) - 1) with (Z.succ (Z.pos (digits2_pos p) - 1)) by lia.
    rewrite !Z.pow_succ_r by lia. lia.
  - cbn. lia.
Qed.

Lemma digits2_pos_unique (p : positive) (d : Z) :
  2 ^ (d - 1) <= Z.pos p < 2 ^ d -> Z.pos (digits2_pos p) = d.
Proof.
  intros [Hlo Hhi]. pose proof (digits2_pos_bounds p) as [Hlo' Hhi'].
  assert (0 < d). { destruct (Z.lt_trichotomy d 0) as [H|[H|H]]; [|subst; cbn in *; lia| lia].
    rewrite Z.pow_neg_r in Hhi by lia. lia. }
  assert (d - 1 < Z.pos (digits2_pos p)).
  { apply (Z.pow_lt_mono_r_iff 2); lia. }
  assert (Z.pos (digits2_pos p) - 1 < d).
  { apply (Z.pow_lt_mono_r_iff 2); lia. }
  lia.
Qed.

Lemma iter_xO_value (m k : positive) :
  Z.pos (Pos.iter xO m k) = Z.pos m * 2 ^ Z.pos k.
Proof.
  induction k as [|k IH] using Pos.peano_ind.
  - cbn. lia.
  - rewrite Pos.iter_succ, Pos2Z.inj_succ, Z.pow_succ_r by lia.
    rewrite Pos2Z.inj_xO, IH. lia.
Qed.

Lemma binary_round_aux_tail (q e : Z) (l : location) :
  binary_round_aux 53 1024 false q e l =
  let '(mrs, e') := shr_fexp 53 1024 q e l in
  round_tail (round_nearest_even (shr_m mrs) (loc_of_shr_record mrs)) e'.
Proof. reflexivity. Qed.

Lemma shr_fexp_53 (p : positive) (e : Z) (l : location) :
  Z.pos (digits2_pos p) = 53 -> -1074 <= e ->
  shr_fexp 53 1024 (Z.pos p) e l = (shr_record_of_loc (Z.pos p) l, e).
Proof.
  intros Hd He. unfold shr_fexp, Zdigits2. rewrite Hd.
  replace (fexp 53 1024 (53 + e) - e) with 0 by (unfold fexp, emin; lia).
  reflexivity.
Qed.

Lemma shr_fexp_54 (p : positive) (e : Z) (l : location) :
  Z.pos (digits2_pos p) = 54 -> -1075 <= e ->
  shr_fexp 53 1024 (Z.pos p) e l = (shr_1 (shr_record_of_loc (Z.pos p) l), e + 1).
Proof.
  intros Hd He. unfold shr_fexp, Zdigits2. rewrite Hd.
  replace (fexp 53 1024 (54 + e) - e) with 1 by (unfold fexp, emin; lia).
  reflexivity.
Qed.

Lemma round_tail_spec (q1 e : Z) :
  2 ^ 52 <= q1 <= 2 ^ 53 -> -1074 <= e <= 900 ->
  exists M E, round_tail q1 e = S754_finite false M E
              /\ e <= E <= e + 1 /\ Z.pos M * 2 ^ (E - e) = q1.
Proof.
  intros Hq He. destruct q1 as [|p|p]; [cbn in Hq; lia| |lia].
  destruct (Z.eq_dec (Z.pos p) (2 ^ 53)) as [Heq|Hne].
  - injection Heq as ->. unfold round_tail.
    rewrite shr_fexp_54 by (reflexivity || lia). cbn [shr_record_of_loc shr_1 shr_m].
    cbn [Pos.pow Pos.iter Pos.mul]. cbv beta iota.
    rewrite (proj2 (Z.leb_le _ _)) by lia.
    eexists _, (e + 1). split; [reflexivity|]. split; [lia|].
    replace (e + 1 - e) with 1 by lia. reflexivity.
  - unfold round_tail. rewrite shr_fexp_53; [|apply digits2_pos_unique; lia|lia].
    cbn [shr_record_of_loc shr_m]. rewrite (proj2 (Z.leb_le _ _)) by lia.
    exists p, e. split; [reflexivity|]. split; [lia|].
    rewrite Z.sub_diag. cbn. lia.
Qed.

Lemma loc_of_shr_record_of_loc (m : Z) (l : location) :
  loc_of_shr_record (shr_record_of_loc m l) = l.
Proof. destruct l as [|[]]; reflexivity. Qed.

Lemma round_nearest_even_bounds (m : Z) (l : location) :
  m <= round_nearest_even m l <= m + 1.
Proof. destruct l as [|[]]; cbn; try destruct (Z.even m); lia. Qed.

Lemma binary_round_aux_bounds (q e : Z) (l : location) :
  2 ^ 52 <= q < 2 ^ 54 -> -1074 <= e <= 800 ->
  exists M E, binary_round_aux 53 1024 false q e l = S754_finite false M E
              /\ e <= E <= e + 2
              /\ q - 1 <= Z.pos M * 2 ^ (E - e) <= q + 2
              /\ (l = loc_Exact -> q < 2 ^ 53 \/ Z.even q = true ->
                  Z.pos M * 2 ^ (E - e) = q).
Proof.
  intros Hq He. rewrite binary_round_aux_tail.
  destruct q as [|p|p]; [cbn in Hq; lia| |lia].
  destruct (Z_lt_le_dec (Z.pos p) (2 ^ 53)) as [Hlt|Hge].
  - rewrite shr_fexp_53; [|apply digits2_pos_unique; lia|lia].
    rewrite loc_of_shr_record_of_loc.
    replace (shr_m (shr_record_of_loc (Z.pos p) l)) with (Z.pos p)
      by (destruct l as [|[]]; reflexivity).
    pose proof (round_nearest_even_bounds (Z.pos p) l) as Hr.
    destruct (round_tail_spec (round_nearest_even (Z.pos p) l) e) as (M & E & -> & HE & Hv);
      [lia|lia|].
    exists M, E. split; [reflexivity|]. split; [lia|]. split; [lia|].
    intros -> _. rewrite Hv. reflexivity.
  - rewrite shr_fexp_54; [|apply digits2_pos_unique; lia|lia].
    set (mrs := shr_1 (shr_record_of_loc (Z.pos p) l)).
    assert (Hm : 2 * shr_m mrs <= Z.pos p <= 2 * shr_m mrs + 1
                 /\ (l = loc_Exact -> Z.even (Z.pos p) = true ->
                     loc_of_shr_record mrs = loc_Exact /\ 2 * shr_m mrs = Z.pos p)).
    { subst mrs. destruct p as [p|p|]; destruct l as [|[]]; cbn; (split; [lia|]);
        intros H1 H2; try discriminate; split; reflexivity || lia. }
    destruct Hm as [Hm Hex].
    pose proof (round_nearest_even_bounds (shr_m mrs) (loc_of_shr_record mrs)) as Hr.
    destruct (round_tail_spec (round_nearest_even (shr_m mrs) (loc_of_shr_record mrs)) (e + 1))
      as (M & E & -> & HE & Hv); [lia|lia|].
    exists M, E. split; [reflexivity|]. split; [lia|].
    assert (Hv' : Z.pos M * 2 ^ (E - e)
                  = 2 * round_nearest_even (shr_m mrs) (loc_of_shr_record mrs)).
    { rewrite <- Hv. replace (E - e) with (Z.succ (E - (e + 1))) by lia.
      rewrite Z.pow_succ_r by lia. lia. }
    rewrite Hv'. split; [lia|].
    intros Hl [Hlt|Heven]; [lia|].
    destruct (Hex Hl Heven) as [Hloc H2]. rewrite Hloc. cbn [round_nearest_even]. exact H2.
Qed.

Lemma of_Z_pos (m : positive) :
  Z.pos m < 2 ^ 52 ->
  exists mz, Float64.of_Z (Z.pos m) = S754_finite false mz (Z.pos (digits2_pos m) - 53)
             /\ Z.pos mz = Z.pos m * 2 ^ (53 - Z.pos (digits2_pos m))
             /\ Z.pos (digits2_pos mz) = 53.
Proof.
  intros Hm. pose proof (digits2_pos_bounds m) as [Hlo Hhi].
  set (d := Z.pos (digits2_pos m)) in *.
  assert (Hd : 1 <= d <= 52).
  { split; [subst d; lia|].
    assert (d - 1 < 52); [|lia]. apply (Z.pow_lt_mono_r_iff 2); lia. }
  unfold Float64.of_Z, binary_normalize, binary_round. fold d.
  replace (fexp Float64.prec Float64.emax (d + 0)) with (d - 53)
    by (unfold fexp, emin, Float64.prec, Float64.emax; lia).
  unfold shl_align. destruct (d - 53 - 0) as [|k|k] eqn:Hk; try lia.
  assert (Hval : Z.pos (Pos.iter xO m k) = Z.pos m * 2 ^ (53 - d)).
  { rewrite iter_xO_value. f_equal. f_equal. lia. }
  assert (Hdig : Z.pos (digits2_pos (Pos.iter xO m k)) = 53).
  { apply digits2_pos_unique. rewrite Hval.
    replace (2 ^ (53 - 1)) with (2 ^ (d - 1) * 2 ^ (53 - d))
      by (rewrite <- Z.pow_add_r by lia; f_equal; lia).
    replace (2 ^ 53) with (2 ^ d * 2 ^ (53 - d))
      by (rewrite <- Z.pow_add_r by lia; f_equal; lia).
    assert (0 < 2 ^ (53 - d)) by (apply Z.pow_pos_nonneg; lia).
    split; [apply Z.mul_le_mono_nonneg_r; lia|apply Z.mul_lt_mono_pos_r; lia]. }
  exists (Pos.iter xO m k). split; [|split; assumption].
  unfold Float64.prec, Float64.emax.
  rewrite binary_round_aux_tail, shr_fexp_53 by (assumption || lia).
  cbn [shr_record_of_loc shr_m loc_of_shr_record round_nearest_even].
  unfold round_tail. rewrite shr_fexp_53 by (assumption || lia).
  cbn [shr_record_of_loc shr_m]. rewrite (proj2 (Z.leb_le _ _)) by lia.
  reflexivity.
Qed.

Lemma div_finite (mx my : positive) (ex ey : Z) :
  Z.pos (digits2_pos mx) = 53 -> Z.pos (digits2_pos my) = 53 ->
  -60 <= ex <= 0 -> -60 <= ey <= 0 ->
  Float64.div (S754_finite false mx ex) (S754_finite false my ey)
  = binary_round_aux 53 1024 false
      ((Z.pos mx * 2 ^ 53) / Z.pos my) (ex - ey - 53)
      (new_location (Z.pos my) ((Z.pos mx * 2 ^ 53) mod Z.pos my)).
Proof.
  intros Hdx Hdy Hex Hey.
  unfold Float64.div, SFdiv, SFdiv_core_binary, Zdigits2, Float64.prec, Float64.emax.
  rewrite Hdx, Hdy.
  replace (Z.min (fexp 53 1024 (53 + ex - (53 + ey))) (ex - ey)) with (ex - ey - 53)
    by (unfold fexp, emin; lia).
  replace (ex - ey - (ex - ey - 53)) with 53 by lia.
  cbv beta iota zeta. rewrite Z.shiftl_mul_pow2 by lia.
  unfold Z.div, Z.modulo.
  destruct (Z.div_eucl (Z.pos mx * 2 ^ 53) (Z.pos my)) as [q r].
  reflexivity.
Qed.

Lemma new_location_zero (nb : Z) : new_location nb 0 = loc_Exact.
Proof. unfold new_location. destruct (Z.even nb); reflexivity. Qed.

Lemma ceil_finite_between (M : positive) (E c : Z) :
  E < 0 -> (c - 1) * 2 ^ (- E) < Z.pos M <= c * 2 ^ (- E) ->
  Float64.ceil (S754_finite false M E) = c.
Proof.
  intros HE [Hlo Hhi]. destruct E as [|p|p]; try lia.
  cbn [Float64.ceil]. change (- Z.neg p) with (Z.pos p) in *.
  assert (HD : 0 < 2 ^ Z.pos p) by (apply Z.pow_pos_nonneg; lia).
  assert (Hq : - Z.pos M / 2 ^ Z.pos p = - c); [|lia].
  symmetry. apply (Z.div_unique _ _ _ (c * 2 ^ Z.pos p - Z.pos M)); lia.
Qed.

Lemma ceil_div_bounds (a b : Z) :
  0 < b -> (ceil_div a b - 1) * b < a <= ceil_div a b * b.
Proof.
  intros Hb. unfold ceil_div.
  pose proof (Z.div_mod (a + b - 1) b) as H.
  pose proof (Z.mod_pos_bound (a + b - 1) b Hb). lia.
Qed.

Theorem ceil_div_float (a b : Z) :
  0 <= a < 2 ^ 32 -> 0 < b < 2 ^ 32 ->
  Float64.ceil (Float64.div (Float64.of_Z a) (Float64.of_Z b)) = ceil_div a b.
Proof.
  intros Ha Hb. destruct b as [|mb|mb]; try lia.
  destruct (of_Z_pos mb) as (my & -> & Hmy & Hdy); [lia|].
  destruct a as [|ma|ma]; try lia.
  { cbn. unfold ceil_div. symmetry. apply Z.div_small. lia. }
  destruct (of_Z_pos ma) as (mx & -> & Hmx & Hdx); [lia|].
  pose proof (digits2_pos_bounds ma) as [Halo Hahi].
  pose proof (digits2_pos_bounds mb) as [Hblo Hbhi].
  set (da := Z.pos (digits2_pos ma)) in *. set (db := Z.pos (digits2_pos mb)) in *.
  set (a := Z.pos ma) in *. set (b := Z.pos mb) in *.
  assert (Hda : 1 <= da <= 32).
  { split; [subst da; lia|]. assert (da - 1 < 32); [|lia].
    apply (Z.pow_lt_mono_r_iff 2); lia. }
  assert (Hdb : 1 <= db <= 32).
  { split; [subst db; lia|]. assert (db - 1 < 32); [|lia].
    apply (Z.pow_lt_mono_r_iff 2); lia. }
  rewrite div_finite by (assumption || lia).
  set (N := 53 + db - da).
  set (K := 2 ^ (53 - db)).
  assert (HK : 0 < K) by (apply Z.pow_pos_nonneg; lia).
  assert (HN : 0 < 2 ^ N) by (apply Z.pow_pos_nonneg; lia).
  assert (Hnum : Z.pos mx * 2 ^ 53 = (a * 2 ^ N) * K).
  { rewrite Hmx. subst K N. rewrite <- !Z.mul_assoc, <- !Z.pow_add_r by lia.
    f_equal. f_equal. lia. }
  assert (Hden : Z.pos my = b * K) by (rewrite Hmy; reflexivity).
  rewrite Hnum, Hden.
  rewrite Z.div_mul_cancel_r by lia.
  rewrite Z.mul_mod_distr_r by lia.
  replace (da - 53 - (db - 53) - 53) with (- N) by lia.
  set (A := a * 2 ^ N). set (q := A / b).
  pose proof (Z.div_mod A b ltac:(lia)) as Hdm.
  pose proof (Z.mod_pos_bound A b ltac:(lia)) as Hmod.
  fold q in Hdm.
  (* size of 2^N against b *)
  assert (H4b : 4 * b <= 2 ^ N).
  { replace N with ((N - db) + db) by lia. rewrite Z.pow_add_r by lia.
    assert (4 <= 2 ^ (N - db)).
    { change 4 with (2 ^ 2). apply Z.pow_le_mono_r; lia. }
    assert (0 < 2 ^ db) by (apply Z.pow_pos_nonneg; lia). nia. }
  assert (Hq : 2 ^ 52 <= q < 2 ^ 54).
  { split.
    - apply Z.div_le_lower_bound; [lia|].
      assert (2 ^ (52 + db) <= A).
      { subst A. replace (52 + db) with ((da - 1) + N) by lia.
        rewrite Z.pow_add_r by lia. apply Z.mul_le_mono_nonneg_r; lia. }
      assert (b * 2 ^ 52 < 2 ^ (52 + db)); [|lia].
      rewrite Z.pow_add_r by lia.
      assert (0 < 2 ^ 52) by lia. nia.
    - apply Z.div_lt_upper_bound; [lia|].
      assert (A < 2 ^ (53 + db)).
      { subst A. replace (53 + db) with (da + N) by lia.
        rewrite Z.pow_add_r by lia. apply Z.mul_lt_mono_pos_r; lia. }
      assert (2 ^ (53 + db) <= b * 2 ^ 54); [|lia].
      replace (53 + db) with ((db - 1) + 54) by lia.
      rewrite Z.pow_add_r by lia. apply Z.mul_le_mono_nonneg_r; lia. }
  destruct (binary_round_aux_bounds q (- N)
              (new_location (b * K) (A mod b * K)) Hq ltac:(lia))
    as (M & E & -> & HE & Hv & Hexact).
  pose proof (ceil_div_bounds a b ltac:(lia)) as Hc.
  set (c := ceil_div a b) in *.
  set (J := 2 ^ (E - - N)) in *.
  assert (HJ : 0 < J) by (apply Z.pow_pos_nonneg; lia).
  assert (HDJ : 2 ^ (- E) * J = 2 ^ N).
  { subst J. rewrite <- Z.pow_add_r by lia. f_equal. lia. }
  assert (HD : 0 < 2 ^ (- E)) by (apply Z.pow_pos_nonneg; lia).
  assert (Hgoal : (c - 1) * 2 ^ N < Z.pos M * J <= c * 2 ^ N).
  { split.
    - (* lower bound *)
      assert (b * ((c - 1) * 2 ^ N + 4) <= A).
      { assert (((c - 1) * b + 1) * 2 ^ N <= a * 2 ^ N)
          by (apply Z.mul_le_mono_nonneg_r; lia).
        subst A. lia. }
      assert ((c - 1) * 2 ^ N + 4 <= q).
      { apply Z.div_le_lower_bound; lia. }
      lia.
    - destruct (Z.eq_dec a (c * b)) as [Heq|Hne].
      + assert (HA : A = (c * 2 ^ N) * b) by (subst A; rewrite Heq; ring).
        assert (Hqc : q = c * 2 ^ N).
        { subst q. rewrite HA. apply Z.div_mul. lia. }
        assert (Hr : A mod b = 0).
        { rewrite HA. apply Z.mod_mul. lia. }
        rewrite Hr, Z.mul_0_l, new_location_zero in Hexact.
        rewrite Hexact; [lia|reflexivity|].
        right. rewrite Hqc, Z.even_mul.
        replace N with (Z.succ (N - 1)) by lia.
        rewrite Z.pow_succ_r by lia. rewrite (Z.even_mul 2). cbn.
        apply orb_true_r.
      + assert (A <= b * (c * 2 ^ N - 4)).
        { assert (a * 2 ^ N <= (c * b - 1) * 2 ^ N)
            by (apply Z.mul_le_mono_nonneg_r; lia).
          subst A. lia. }
        assert (q <= c * 2 ^ N - 4).
        { apply Z.div_le_upper_bound; lia. }
        lia. }
  apply ceil_finite_between; [lia|].
  destruct Hgoal as [Hlo Hhi]. split.
  - apply (Z.mul_lt_mono_pos_r J); [lia|]. rewrite <- Z.mul_assoc, HDJ. exact Hlo.
  - apply (Z.mul_le_mono_pos_r _ _ J); [lia|]. rewrite <- Z.mul_assoc, HDJ. exact Hhi.
Qed.

(** ** Weight normalizer *)

(** X1: The weight written by the normalizer is an exact integer ceiling: the
    passage through [float64] loses nothing for [uint32] operands. The
    numerator is the [uint32] product [raw * 128]. *)
Theorem normalizedWeight_exact (total raw : Z) :
  0 < total < Uint32.modulus -> 0 <= raw < Uint32.modulus ->
  normalizedWeight total raw
  = ceil_div (Uint32.mul raw maxLoadBalancingWeight) total.
Proof.
  intros Ht Hr. unfold normalizedWeight, Float64.ceil_uint32.
  pose proof (wrap_in_range (raw * maxLoadBalancingWeight)) as Hm.
  unfold Uint32.in_range, Uint32.modulus in *. fold (Uint32.mul raw maxLoadBalancingWeight) in Hm.
  rewrite ceil_div_float by lia.
  apply wrap_small. unfold Uint32.in_range, Uint32.modulus.
  pose proof (ceil_div_bounds (Uint32.mul raw maxLoadBalancingWeight) total ltac:(lia)) as Hc.
  set (c := ceil_div (Uint32.mul raw maxLoadBalancingWeight) total) in *.
  split.
  - destruct (Z_lt_le_dec c 0) as [Hneg|]; [|lia].
    assert (c * total <= (-1) * total) by (apply Z.mul_le_mono_nonneg_r; lia). lia.
  - destruct (Z_lt_le_dec c (2 ^ 32)) as [|Hbig]; [lia|].
    assert ((2 ^ 32 - 1) * 1 <= (c - 1) * total).
    { apply Z.mul_le_mono_nonneg; lia. }
    lia.
Qed.

Lemma normalizedWeight_exact_witness :
  normalizedWeight 3 1 = ceil_div (Uint32.mul 1 maxLoadBalancingWeight) 3.
Proof.
  apply (normalizedWeight_exact 3 1); unfold Uint32.modulus; lia.
Defined.

Lemma normalizeLoop_spec (total : Z) (rest pre dummy post : list LocalityLbEndpoints) :
  length dummy = length rest ->
  normalizeLoop total (length pre) rest (pre ++ dummy ++ post)
  = pre ++ map (normalizeGroup total) rest ++ post.
Proof.
  revert pre dummy. induction rest as [|g rest IH]; intros pre dummy Hlen.
  - destruct dummy; [reflexivity|discriminate].
  - destruct dummy as [|d dummy]; [discriminate|]. injection Hlen as Hlen.
    cbn [normalizeLoop map].
    rewrite insert_app_r_alt by lia. rewrite Nat.sub_diag. cbn [app].
    change (<[0%nat:=?x]> (d :: ?l)) with (x :: l).
    specialize (IH (pre ++ [set_weight g (normalizedWeight total (GetWeight g))])
                  dummy Hlen).
    rewrite length_app, Nat.add_1_r in IH. cbn [length] in IH.
    rewrite <- !app_assoc in IH. exact IH.
Qed.

Lemma normalizeLoadBalancingWeight_map (endpoints : list LocalityLbEndpoints) :
  normalizeLoadBalancingWeight endpoints =
    if totalLbEndpointsNum endpoints =? 0 then endpoints
    else map (normalizeGroup (totalLbEndpointsNum endpoints)) endpoints.
Proof.
  unfold normalizeLoadBalancingWeight.
  destruct (totalLbEndpointsNum endpoints =? 0); [reflexivity|].
  pose proof (normalizeLoop_spec (totalLbEndpointsNum endpoints) endpoints []
                (replicate (length endpoints) emptyLocalityLbEndpoints) []) as H.
  rewrite !app_nil_r in H. cbn [app length] in H. apply H.
  apply length_replicate.
Qed.

(** X2: The normalizer changes nothing but the weights: the output has as many
    groups as the input, in the same order, each with the locality and the
    endpoint list of the input group. *)
Theorem normalizeLoadBalancingWeight_keeps_groups (endpoints : list LocalityLbEndpoints) :
  length (normalizeLoadBalancingWeight endpoints) = length endpoints
  /\ map LLE_Locality (normalizeLoadBalancingWeight endpoints)
     = map LLE_Locality endpoints
  /\ map LbEndpoints (normalizeLoadBalancingWeight endpoints)
     = map LbEndpoints endpoints.
Proof.
  rewrite normalizeLoadBalancingWeight_map.
  destruct (totalLbEndpointsNum endpoints =? 0); [done|].
  rewrite length_map, !map_map. done.
Qed.

Lemma totalLbEndpointsNum_from (endpoints : list LocalityLbEndpoints) (acc : Z) :
  Forall (fun g => 0 <= GetWeight g) endpoints ->
  0 <= acc -> acc + sumWeights endpoints < Uint32.modulus ->
  fold_left (fun acc g => Uint32.add acc (GetWeight g)) endpoints acc
  = acc + sumWeights endpoints.
Proof.
  revert acc. induction endpoints as [|g endpoints IH]; intros acc Hall Hacc Hsum.
  - cbn. lia.
  - apply Forall_cons in Hall as [Hg Hall]. cbn [fold_left sumWeights map fold_right] in *.
    fold (sumWeights endpoints) in *.
    assert (0 <= sumWeights endpoints).
    { clear -Hall. induction Hall; cbn; [lia|]. fold (sumWeights l). lia. }
    unfold Uint32.add at 2. rewrite wrap_small by (unfold Uint32.in_range; lia).
    rewrite IH; [lia|assumption|lia|lia].
Qed.

Lemma sumWeights_nonneg (endpoints : list LocalityLbEndpoints) :
  Forall (fun g => 0 <= GetWeight g) endpoints -> 0 <= sumWeights endpoints.
Proof. intros H. induction H; cbn; [lia|]. fold (sumWeights l). lia. Qed.

Lemma sumWeights_elem (endpoints : list LocalityLbEndpoints) (g : LocalityLbEndpoints) :
  Forall (fun g => 0 <= GetWeight g) endpoints ->
  g ∈ endpoints -> GetWeight g <= sumWeights endpoints.
Proof.
  intros Hall Hin. induction Hall as [|x l Hx Hl IH]; [inversion Hin|].
  cbn. fold (sumWeights l). pose proof (sumWeights_nonneg l Hl).
  apply elem_of_cons in Hin as [->|Hin]; [lia|]. specialize (IH Hin). lia.
Qed.

Lemma noWrap_total (endpoints : list LocalityLbEndpoints) :
  noWrap endpoints -> totalLbEndpointsNum endpoints = sumWeights endpoints.
Proof.
  intros [Hall Hsum]. unfold totalLbEndpointsNum.
  rewrite totalLbEndpointsNum_from; [lia| |lia|lia].
  eapply Forall_impl; [exact Hall|]. cbn. lia.
Qed.

Lemma noWrap_weight (endpoints : list LocalityLbEndpoints) (g : LocalityLbEndpoints) :
  noWrap endpoints -> g ∈ endpoints -> 0 < sumWeights endpoints ->
  normalizedWeight (sumWeights endpoints) (GetWeight g)
  = ceil_div (GetWeight g * 128) (sumWeights endpoints).
Proof.
  intros [Hall Hsum] Hin Hpos.
  pose proof (proj1 (Forall_forall _ _) Hall g Hin) as Hg. cbn in Hg.
  unfold normalizedWeight, Float64.ceil_uint32, Uint32.mul, maxLoadBalancingWeight.
  rewrite (wrap_small (GetWeight g * 128))
    by (unfold Uint32.in_range, Uint32.modulus; lia).
  unfold Uint32.modulus in Hsum. rewrite ceil_div_float by lia.
  apply wrap_small. unfold Uint32.in_range, Uint32.modulus, ceil_div.
  split.
  - apply Z.div_pos; lia.
  - apply Z.div_lt_upper_bound; [lia|].
    assert (GetWeight g * 128 < 2 ^ 32) by lia.
    assert (1 * 2 ^ 32 <= sumWeights endpoints * 2 ^ 32)
      by (apply Z.mul_le_mono_nonneg_r; lia).
    lia.
Qed.

(** X3: As long as nothing wraps (every raw weight below 2^25, their sum below
    2^32), the normalizer computes [ceil(raw * 128 / T)] for every group, and
    returns its input when [T = 0]. *)
Theorem normalizeLoadBalancingWeight_noWrap (endpoints : list LocalityLbEndpoints) :
  noWrap endpoints ->
  normalizeLoadBalancingWeight endpoints = normalizeExact endpoints.
Proof.
  intros Hnw. rewrite normalizeLoadBalancingWeight_map, (noWrap_total _ Hnw).
  unfold normalizeExact. fold (sumWeights endpoints).
  destruct (Z.eqb_spec (sumWeights endpoints) 0) as [|Hne]; [reflexivity|].
  assert (Hpos : 0 < sumWeights endpoints).
  { destruct Hnw as [Hall _]. pose proof (sumWeights_nonneg endpoints) as H.
    assert (0 <= sumWeights endpoints); [|lia].
    apply H. eapply Forall_impl; [exact Hall|]. cbn. lia. }
  apply map_ext_in. intros g Hin. apply list_elem_of_In in Hin.
  unfold normalizeGroup. f_equal. by apply noWrap_weight.
Qed.

Lemma normalizeLoadBalancingWeight_noWrap_witness :
  normalizeLoadBalancingWeight [group 1; group 1; group 1]
  = normalizeExact [group 1; group 1; group 1].
Proof.
  apply (normalizeLoadBalancingWeight_noWrap [group 1; group 1; group 1]).
  split.
  - repeat constructor; cbn; lia.
  - vm_compute. reflexivity.
Defined.

(** X4: As long as nothing wraps and the total is positive, every output weight
    is at most 128 and a group of raw weight at least 1 gets weight at least
    1. *)
Theorem normalizeLoadBalancingWeight_range (endpoints : list LocalityLbEndpoints) :
  noWrap endpoints -> 0 < sumWeights endpoints ->
  Forall2 (fun g g' => 0 <= GetWeight g' <= 128
                       /\ (1 <= GetWeight g -> 1 <= GetWeight g'))
          endpoints (normalizeLoadBalancingWeight endpoints).
Proof.
  intros Hnw Hpos. rewrite normalizeLoadBalancingWeight_map, (noWrap_total _ Hnw).
  destruct (Z.eqb_spec (sumWeights endpoints) 0) as [|_]; [lia|].
  apply Forall2_fmap_r, Forall_Forall2_diag, Forall_forall. intros g Hin.
  unfold normalizeGroup, compose.
  change (GetWeight (set_weight g ?w)) with w.
  rewrite (noWrap_weight endpoints g Hnw Hin Hpos).
  destruct Hnw as [Hall _].
  assert (Hall' : Forall (fun g => 0 <= GetWeight g) endpoints).
  { eapply Forall_impl; [exact Hall|]. cbn. lia. }
  pose proof (sumWeights_elem endpoints g Hall' Hin) as Hle.
  pose proof (proj1 (Forall_forall _ _) Hall' g Hin) as Hge. cbn in Hge.
  unfold ceil_div. set (T := sumWeights endpoints) in *. set (r := GetWeight g) in *.
  repeat split.
  - apply Z.div_pos; lia.
  - assert ((r * 128 + T - 1) / T < 129); [|lia].
    apply Z.div_lt_upper_bound; lia.
  - intros Hr. apply Z.div_le_lower_bound; lia.
Qed.

Lemma normalizeLoadBalancingWeight_range_witness :
  Forall2 (fun g g' => 0 <= GetWeight g' <= 128
                       /\ (1 <= GetWeight g -> 1 <= GetWeight g'))
          [group 5; group 0; group 1]
          (normalizeLoadBalancingWeight [group 5; group 0; group 1]).
Proof.
  apply (normalizeLoadBalancingWeight_range [group 5; group 0; group 1]).
  - split.
    + repeat constructor; cbn; lia.
    + vm_compute. reflexivity.
  - vm_compute. reflexivity.
Defined.

(** X5: A list whose groups all have weight 0 (a nil weight counts as 0), the
    empty list included, is returned as it is: no weight is allocated. *)
Theorem normalizeLoadBalancingWeight_all_zero (endpoints : list LocalityLbEndpoints) :
  Forall (fun g => GetWeight g = 0) endpoints ->
  normalizeLoadBalancingWeight endpoints = endpoints.
Proof.
  intros Hall. unfold normalizeLoadBalancingWeight.
  assert (Ht : totalLbEndpointsNum endpoints = 0); [|by rewrite Ht].
  unfold totalLbEndpointsNum. induction Hall as [|g l Hg _ IH]; [reflexivity|].
  cbn [fold_left]. rewrite Hg. exact IH.
Qed.

Lemma normalizeLoadBalancingWeight_all_zero_witness :
  normalizeLoadBalancingWeight [emptyLocalityLbEndpoints; group 0]
  = [emptyLocalityLbEndpoints; group 0].
Proof.
  apply (normalizeLoadBalancingWeight_all_zero [emptyLocalityLbEndpoints; group 0]).
  repeat constructor.
Defined.

(** ** Cluster registry: subscriptions *)

Lemma set_clients_id (c : EdsCluster) : set_clients c (EdsClients c) = c.
Proof. by destruct c. Qed.

Lemma addEdsCon_unfold (edsClusters : gmap string EdsCluster)
    (clusterName node : string) (connection : XdsConnection) (now : Z) :
  addEdsCon edsClusters clusterName node connection now
  = <[clusterName :=
        match edsClusters !! clusterName with
        | Some c => set_clients c (<[node := connection]> (EdsClients c))
        | None => set_clients (freshCluster now) {[ node := connection ]}
        end]> edsClusters.
Proof.
  unfold addEdsCon, getOrAddEdsCluster.
  destruct (edsClusters !! clusterName) as [c|]; [reflexivity|].
  rewrite insert_insert_eq. cbn [EdsClients]. by rewrite insert_empty.
Qed.

(** X8: [addEdsCon] records the connection for the node, in place of any
    connection recorded before (a reconnect); the record of every other
    (cluster, node) pair stays as it was. *)
Theorem addEdsCon_clientOf (edsClusters : gmap string EdsCluster)
    (clusterName node : string) (connection : XdsConnection) (now : Z)
    (clusterName' node' : string) :
  clientOf (addEdsCon edsClusters clusterName node connection now) clusterName' node'
  = if decide (clusterName' = clusterName /\ node' = node) then Some connection
    else clientOf edsClusters clusterName' node'.
Proof.
  rewrite addEdsCon_unfold. unfold clientOf.
  destruct (decide (clusterName' = clusterName)) as [->|Hc].
  - rewrite lookup_insert_eq.
    destruct (decide (node' = node)) as [->|Hn].
    + rewrite decide_True by done.
      destruct (edsClusters !! clusterName); cbn [set_clients EdsClients];
        [by rewrite lookup_insert_eq|by rewrite lookup_singleton_eq].
    + rewrite decide_False by tauto.
      destruct (edsClusters !! clusterName); cbn [set_clients EdsClients];
        [by rewrite lookup_insert_ne|by rewrite lookup_singleton_ne].
  - rewrite lookup_insert_ne by done. rewrite decide_False by tauto. done.
Qed.

(** X9: The registry keeps only watched clusters: if every entry has a
    subscriber, this is still so after [addEdsCon] and after [removeEdsCon]. *)
Theorem watched_preserved (edsClusters : gmap string EdsCluster)
    (clusterName node : string) (connection : XdsConnection) (now : Z) :
  watched edsClusters ->
  watched (addEdsCon edsClusters clusterName node connection now)
  /\ watched (removeEdsCon edsClusters clusterName node connection).
Proof.
  intros Hw. split.
  - rewrite addEdsCon_unfold. intros k c Hk.
    destruct (decide (k = clusterName)) as [->|Hne].
    + rewrite lookup_insert_eq in Hk. injection Hk as <-.
      destruct (edsClusters !! clusterName); cbn [set_clients EdsClients].
      * apply insert_non_empty.
      * apply (insert_non_empty (M:=gmap string) ∅).
    + rewrite lookup_insert_ne in Hk by done. by apply (Hw k).
  - destruct (decide (clientOf edsClusters clusterName node = Some connection))
      as [Hlive|Hstale].
    2: { by rewrite removeEdsCon_stale. }
    unfold clientOf in Hlive.
    destruct (edsClusters !! clusterName) as [c|] eqn:Hc; [|done].
    rewrite (removeEdsCon_live _ _ _ _ c Hc Hlive).
    intros k c' Hk.
    destruct (bool_decide_reflect (size (delete node (EdsClients c)) = 0%nat))
      as [He|Hne].
    + destruct (decide (k = clusterName)) as [->|Hk'].
      * by rewrite lookup_delete_eq in Hk.
      * rewrite lookup_delete_ne in Hk by done. by apply (Hw k).
    + destruct (decide (k = clusterName)) as [->|Hk'].
      * rewrite lookup_insert_eq in Hk. injection Hk as <-.
        cbn [set_clients EdsClients]. intros Hempty. apply Hne.
        by rewrite Hempty, map_size_empty.
      * rewrite lookup_insert_ne in Hk by done. by apply (Hw k).
Qed.

Lemma watched_preserved_witness :
  let reg : gmap string EdsCluster :=
    {[ "outbound|80||svc.ns" := clusterWithClients {[ "n1" := 1%nat ]} ]} in
  watched (addEdsCon reg "outbound|80||svc.ns" "n1" 1%nat 100)
  /\ watched (removeEdsCon reg "outbound|80||svc.ns" "n1" 1%nat).
Proof.
  intros reg.
  apply (watched_preserved reg "outbound|80||svc.ns" "n1" 1%nat 100).
  - intros k c Hk. unfold reg in Hk.
    apply lookup_singleton_Some in Hk as [_ <-].
    cbn [clusterWithClients EdsClients]. apply (insert_non_empty (M:=gmap string) ∅).
Defined.

(** X10: Subscribing a node that has no connection recorded and unsubscribing it
    again with the same handle gives back the registry, in a registry whose
    entries all have a subscriber: an entry created for the subscription is
    collected again, an older entry gets its client set back. *)
Theorem addEdsCon_removeEdsCon (edsClusters : gmap string EdsCluster)
    (clusterName node : string) (connection : XdsConnection) (now : Z) :
  watched edsClusters ->
  clientOf edsClusters clusterName node = None ->
  removeEdsCon (addEdsCon edsClusters clusterName node connection now)
               clusterName node connection
  = edsClusters.
Proof.
  intros Hw Hnone. rewrite addEdsCon_unfold. unfold clientOf in Hnone.
  destruct (edsClusters !! clusterName) as [c|] eqn:Hc.
  - rewrite (removeEdsCon_live _ _ _ _
               (set_clients c (<[node := connection]> (EdsClients c)))).
    2: { by rewrite lookup_insert_eq. }
    2: { cbn [set_clients EdsClients]. by rewrite lookup_insert_eq. }
    cbn [set_clients EdsClients LoadAssignment FirstUse NonEmptyTime].
    rewrite delete_insert_id by done.
    rewrite bool_decide_eq_false_2.
    2: { intros He. apply map_size_empty_inv in He. by apply (Hw clusterName c). }
    rewrite insert_insert_eq.
    change (set_clients (set_clients c ?x) ?y) with (set_clients c y).
    rewrite set_clients_id. by apply insert_id.
  - rewrite (removeEdsCon_live _ _ _ _
               (set_clients (freshCluster now) {[ node := connection ]})).
    2: { by rewrite lookup_insert_eq. }
    2: { cbn [set_clients EdsClients]. by rewrite lookup_singleton_eq. }
    cbn [set_clients EdsClients]. rewrite delete_singleton_eq.
    rewrite bool_decide_eq_true_2 by apply map_size_empty.
    by rewrite delete_insert_id.
Qed.

Lemma addEdsCon_removeEdsCon_witness :
  removeEdsCon (addEdsCon ∅ "outbound|80||svc.ns" "n1" 1%nat 100)
               "outbound|80||svc.ns" "n1" 1%nat
  = ∅.
Proof.
  apply (addEdsCon_removeEdsCon ∅ "outbound|80||svc.ns" "n1" 1%nat 100).
  - intros k c Hk. by rewrite lookup_empty in Hk.
  - reflexivity.
Defined.

(** X11: A reconnect followed by the late cleanup of the replaced stream: the
    removal with the old handle leaves the new connection recorded. *)
Theorem reconnect_then_stale_removal (edsClusters : gmap string EdsCluster)
    (clusterName node : string) (old new : XdsConnection) (now : Z) :
  old <> new ->
  removeEdsCon (addEdsCon edsClusters clusterName node new now) clusterName node old
  = addEdsCon edsClusters clusterName node new now
  /\ clientOf (addEdsCon edsClusters clusterName node new now) clusterName node
     = Some new.
Proof.
  intros Hne.
  assert (Hc : clientOf (addEdsCon edsClusters clusterName node new now)
                 clusterName node = Some new).
  { rewrite addEdsCon_unfold. unfold clientOf. rewrite lookup_insert_eq.
    destruct (edsClusters !! clusterName); cbn [set_clients EdsClients];
      [by rewrite lookup_insert_eq|by rewrite lookup_singleton_eq]. }
  split; [|exact Hc]. apply removeEdsCon_stale. rewrite Hc. congruence.
Qed.

Lemma reconnect_then_stale_removal_witness :
  let reg := addEdsCon ∅ "outbound|80||svc.ns" "n1" 1%nat 100 in
  removeEdsCon (addEdsCon reg "outbound|80||svc.ns" "n1" 2%nat 101)
               "outbound|80||svc.ns" "n1" 1%nat
  = addEdsCon reg "outbound|80||svc.ns" "n1" 2%nat 101
  /\ clientOf (addEdsCon reg "outbound|80||svc.ns" "n1" 2%nat 101)
       "outbound|80||svc.ns" "n1" = Some 2%nat.
Proof.
  intros reg.
  apply (reconnect_then_stale_removal reg "outbound|80||svc.ns" "n1" 1%nat 2%nat 101).
  lia.
Defined.

(** ** Shard store: what an update replaces and what it leaves *)

Lemma shardEntries_edsUpdate (s : DiscoveryServer) (shard serviceName : string)
    (entries : list IstioEndpoint) (internal : bool) (serviceName' shard' : string) :
  shardEntries (edsUpdate s shard serviceName entries internal) serviceName' shard'
  = if decide (serviceName' = serviceName /\ shard' = shard) then Some entries
    else shardEntries s serviceName' shard'.
Proof.
  destruct (edsUpdate_unfold s shard serviceName entries internal) as (full & -> & _).
  unfold shardEntries. cbn [s_EndpointShardsByService].
  destruct (decide (serviceName' = serviceName)) as [->|Hs].
  - rewrite lookup_insert_eq. cbn [Shards].
    destruct (decide (shard' = shard)) as [->|Hsh].
    + rewrite decide_True by done. by rewrite lookup_insert_eq.
    + rewrite decide_False by tauto. rewrite lookup_insert_ne by done.
      destruct (s_EndpointShardsByService s !! serviceName); [done|].
      by rewrite lookup_empty.
  - rewrite decide_False by tauto. by rewrite lookup_insert_ne.
Qed.

(** X12: [edsUpdate] replaces one shard wholesale: afterwards the shard holds
    exactly the entries passed, every other shard of the service and every
    shard of every other service holds what it held, and the service is in
    the set of services to push. *)
Theorem edsUpdate_shardEntries (s : DiscoveryServer) (shard serviceName : string)
    (entries : list IstioEndpoint) (internal : bool) (serviceName' shard' : string) :
  shardEntries (edsUpdate s shard serviceName entries internal) serviceName' shard'
  = (if decide (serviceName' = serviceName /\ shard' = shard) then Some entries
     else shardEntries s serviceName' shard')
  /\ serviceName ∈ edsUpdates (edsUpdate s shard serviceName entries internal).
Proof.
  split; [apply shardEntries_edsUpdate|].
  destruct (edsUpdate_unfold s shard serviceName entries internal) as (full & -> & _).
  cbn [edsUpdates]. apply elem_of_union_l. by apply elem_of_singleton.
Qed.

(** X13: Last writer wins, shard by shard: after a sequence of updates a shard
    holds the entries of the last update addressed to it, and what it held
    before the sequence if no update was addressed to it. *)
Theorem runUpdates_shardEntries (us : list ShardUpdate) (s : DiscoveryServer)
    (serviceName shard : string) :
  shardEntries (runUpdates s us) serviceName shard
  = match List.find (updatesShard serviceName shard) (rev us) with
    | Some u => Some (su_entries u)
    | None => shardEntries s serviceName shard
    end.
Proof.
  induction us as [|u us IH] using rev_ind; [reflexivity|].
  unfold runUpdates. rewrite fold_left_app, rev_unit. cbn [fold_left List.find].
  fold (runUpdates s us). unfold applyUpdate at 1.
  rewrite shardEntries_edsUpdate.
  unfold updatesShard at 1.
  destruct (decide (serviceName = su_service u /\ shard = su_shard u)) as [[-> ->]|Hne].
  - by rewrite !bool_decide_eq_true_2.
  - rewrite IH.
    destruct (bool_decide_reflect (su_service u = serviceName)) as [H1|H1];
      destruct (bool_decide_reflect (su_shard u = shard)) as [H2|H2];
      cbn [andb]; try done.
    exfalso. apply Hne. by split.
Qed.

Lemma knownAccounts_insert (m : gmap string EndpointShardsByService)
    (serviceName : string) (ep : EndpointShardsByService) (upd : gset string)
    (cu : list bool) :
  knownAccounts {| s_EndpointShardsByService := <[serviceName := ep]> m;
                   edsUpdates := upd; ConfigUpdates := cu |} serviceName
  = ServiceAccounts ep.
Proof. unfold knownAccounts. cbn. by rewrite lookup_insert_eq. Qed.

(** X14: Repeating an update changes nothing in the store: the shards and the
    set of services to push are the same after the second call as after the
    first. Only the push signal is issued again. *)
Theorem edsUpdate_repeat (s : DiscoveryServer) (shard serviceName : string)
    (entries : list IstioEndpoint) (internal internal' : bool) :
  let once := edsUpdate s shard serviceName entries internal in
  let twice := edsUpdate once shard serviceName entries internal' in
  s_EndpointShardsByService twice = s_EndpointShardsByService once
  /\ edsUpdates twice = edsUpdates once
  /\ length (ConfigUpdates twice) = S (length (ConfigUpdates once)).
Proof.
  cbn zeta.
  destruct (edsUpdate_unfold (edsUpdate s shard serviceName entries internal)
              shard serviceName entries internal') as (full2 & -> & _).
  destruct (edsUpdate_unfold s shard serviceName entries internal) as (full & -> & _).
  cbn [s_EndpointShardsByService edsUpdates ConfigUpdates].
  rewrite knownAccounts_insert, lookup_insert_eq. cbn [Shards ServiceAccounts].
  rewrite !insert_insert_eq. split; [reflexivity|].
  split; [by rewrite (assoc_L (∪)), (idemp_L (∪))|].
  rewrite !length_app. cbn. lia.
Qed.

(** ** Workload updates *)

(** X20: [WorkloadUpdate] asks for a push in one case only: the workload is
    known, the labels passed are not nil and differ from the recorded ones;
    the push is then a full push. A nil label map (forget the workload), a
    workload seen for the first time and unchanged labels ask for none. *)
Theorem WorkloadUpdate_push (st : WorkloadStore) (id : string)
    (labels annotations : option (gmap string string)) :
  wl_ConfigUpdates (WorkloadUpdate st id labels annotations)
  = wl_ConfigUpdates st
    ++ match labels, WorkloadsByID st !! id with
       | Some _, Some w => if bool_decide (W_Labels w = labels) then [] else [true]
       | _, _ => []
       end.
Proof.
  unfold WorkloadUpdate. destruct labels as [l|]; cbn; [|by rewrite app_nil_r].
  destruct (WorkloadsByID st !! id) as [w|]; cbn; [|by rewrite app_nil_r].
  destruct (bool_decide (W_Labels w = Some l)); cbn; [by rewrite app_nil_r|done].
Qed.

(** X21: After [WorkloadUpdate] the workload is forgotten if the labels passed
    are nil, and recorded with the labels passed otherwise. The annotations
    passed are recorded for a workload seen for the first time only: a known
    workload keeps its annotations, also when its labels change. The other
    workloads are untouched. *)
Theorem WorkloadUpdate_lookup (st : WorkloadStore) (id : string)
    (labels annotations : option (gmap string string)) (id' : string) :
  WorkloadsByID (WorkloadUpdate st id labels annotations) !! id'
  = if decide (id' = id) then
      match labels, WorkloadsByID st !! id with
      | None, _ => None
      | Some _, None => Some {| W_Labels := labels; W_Annotations := annotations |}
      | Some _, Some w => Some {| W_Labels := labels; W_Annotations := W_Annotations w |}
      end
    else WorkloadsByID st !! id'.
Proof.
  unfold WorkloadUpdate. destruct (decide (id' = id)) as [->|Hne].
  - destruct labels as [l|]; cbn; [|by rewrite lookup_delete_eq].
    destruct (WorkloadsByID st !! id) as [w|] eqn:Hw; cbn;
      [|by rewrite lookup_insert_eq].
    destruct (bool_decide_reflect (W_Labels w = Some l)) as [Heq|Hneq]; cbn.
    + rewrite Hw. destruct w as [wl wa]. cbn in *. by subst.
    + by rewrite lookup_insert_eq.
  - destruct labels as [l|]; cbn; [|by rewrite lookup_delete_ne].
    destruct (WorkloadsByID st !! id) as [w|]; cbn; [|by rewrite lookup_insert_ne].
    destruct (bool_decide (W_Labels w = Some l)); cbn; [done|].
    by rewrite lookup_insert_ne.
Qed.

(** X22: Delivering the same workload update a second time changes nothing and
    asks for no push. *)
Theorem WorkloadUpdate_repeat (st : WorkloadStore) (id : string)
    (labels annotations : option (gmap string string)) :
  WorkloadUpdate (WorkloadUpdate st id labels annotations) id labels annotations
  = WorkloadUpdate st id labels annotations.
Proof.
  unfold WorkloadUpdate. destruct labels as [l|]; cbn.
  - destruct (WorkloadsByID st !! id) as [w|] eqn:Hw; cbn.
    + destruct (bool_decide_reflect (W_Labels w = Some l)) as [Heq|Hneq]; cbn.
      * rewrite Hw. by rewrite bool_decide_eq_true_2.
      * rewrite lookup_insert_eq. cbn. by rewrite bool_decide_eq_true_2.
    + rewrite lookup_insert_eq. cbn. by rewrite bool_decide_eq_true_2.
  - by rewrite delete_delete_eq.
Qed.

(** ** Registry reconciler *)

Lemma accountsIn_insert (m : gmap string (gset string)) (k : string)
    (v : gset string) (h : string) :
  accountsIn (<[k := v]> m) h = if decide (h = k) then v else accountsIn m h.
Proof.
  unfold accountsIn. destruct (decide (h = k)) as [->|Hne].
  - by rewrite lookup_insert_eq.
  - by rewrite lookup_insert_ne.
Qed.

Lemma instanceAccounts_cons (ep : ServiceInstance) (eps : list ServiceInstance) :
  instanceAccounts (ep :: eps)
  = (if bool_decide (SI_ServiceAccount ep <> "") then {[ SI_ServiceAccount ep ]} else ∅)
    ∪ instanceAccounts eps.
Proof.
  unfold instanceAccounts. cbn [map List.filter].
  destruct (String.eqb_spec (SI_ServiceAccount ep) "") as [He|Hne]; cbn [negb].
  - rewrite bool_decide_eq_false_2 by (intros H; by apply H).
    by rewrite (left_id_L ∅ (∪)).
  - rewrite bool_decide_eq_true_2 by done. reflexivity.
Qed.

Lemma sweepInstances_accounts (host : string) (port : Port)
    (eps : list ServiceInstance)
    (acc : list IstioEndpoint * gmap string (gset string)) :
  nonEmptySets (snd acc) ->
  nonEmptySets (snd (fold_left (sweepInstance host port) eps acc))
  /\ forall h,
       accountsIn (snd (fold_left (sweepInstance host port) eps acc)) h
       = (if decide (h = host) then instanceAccounts eps else ∅)
         ∪ accountsIn (snd acc) h.
Proof.
  revert acc. induction eps as [|ep eps IH]; intros [entries m] Hne.
  - cbn [fold_left snd]. split; [done|]. intros h. destruct (decide (h = host)).
    + unfold instanceAccounts. cbn [map List.filter list_to_set].
      by rewrite (left_id_L ∅ (∪)).
    + by rewrite (left_id_L ∅ (∪)).
  - cbn [fold_left]. unfold sweepInstance at 2 4.
    destruct (bool_decide_reflect (SI_ServiceAccount ep <> "")) as [Hsa|Hsa].
    + destruct (IH (entries ++ [toIstioEndpoint port ep],
                    <[host := {[SI_ServiceAccount ep]} ∪ default ∅ (m !! host)]> m))
        as [Hne' Hacc].
      { intros k v Hk. cbn [snd] in Hk.
        destruct (decide (k = host)) as [->|Hkh].
        - rewrite lookup_insert_eq in Hk. injection Hk as <-.
          intros He. apply (not_elem_of_empty (C:=gset string) (SI_ServiceAccount ep)).
          rewrite <- He. by apply elem_of_union_l, elem_of_singleton.
        - rewrite lookup_insert_ne in Hk by done. by apply (Hne k). }
      split; [exact Hne'|]. intros h. rewrite Hacc. cbn [snd].
      rewrite accountsIn_insert, instanceAccounts_cons.
      rewrite bool_decide_eq_true_2 by done.
      destruct (decide (h = host)) as [->|Hh]; [|done].
      fold (accountsIn m host).
      rewrite (assoc_L (∪)). f_equal. apply (comm_L (∪)).
    + destruct (IH (entries ++ [toIstioEndpoint port ep], m) Hne) as [Hne' Hacc].
      split; [exact Hne'|]. intros h. rewrite Hacc. cbn [snd].
      rewrite instanceAccounts_cons, bool_decide_eq_false_2 by done.
      by rewrite (left_id_L ∅ (∪)).
Qed.

Lemma sweepPorts_accounts (registry : Registry) (host : string) (ports : list Port)
    (acc acc' : list IstioEndpoint * gmap string (gset string)) :
  sweepPorts registry host ports acc = Ok acc' ->
  nonEmptySets (snd acc) ->
  nonEmptySets (snd acc')
  /\ forall h,
       accountsIn (snd acc') h
       = (if decide (h = host) then ⋃ (map (portAccounts registry host) ports) else ∅)
         ∪ accountsIn (snd acc) h.
Proof.
  revert acc. induction ports as [|port ports IH]; intros acc Hsweep Hne.
  - cbn in Hsweep. injection Hsweep as <-. split; [done|]. intros h.
    cbn [map]. rewrite union_list_nil.
    destruct (decide (h = host)); by rewrite (left_id_L ∅ (∪)).
  - cbn [sweepPorts] in Hsweep. cbn [map]. rewrite union_list_cons.
    unfold portAccounts at 1.
    destruct (Port_Protocol port) as [|pname].
    + destruct (IH acc Hsweep Hne) as [Hne' Hacc]. split; [exact Hne'|].
      intros h. rewrite Hacc. by rewrite (left_id_L ∅ (∪)).
    + destruct (Registry_InstancesByPort registry host (Port_Port port) ∅)
        as [eps|err]; [|discriminate].
      destruct (sweepInstances_accounts host port eps acc Hne) as [Hne1 Hacc1].
      destruct (IH _ Hsweep Hne1) as [Hne' Hacc]. split; [exact Hne'|].
      intros h. rewrite Hacc, Hacc1.
      destruct (decide (h = host)).
      * rewrite (assoc_L (∪)). f_equal. apply (comm_L (∪)).
      * by rewrite !(left_id_L ∅ (∪)).
Qed.

Lemma edsUpdate_internal_signal (s : DiscoveryServer) (shard serviceName : string)
    (entries : list IstioEndpoint) :
  ConfigUpdates (edsUpdate s shard serviceName entries true)
  = ConfigUpdates s ++ [false].
Proof.
  destruct (edsUpdate_unfold s shard serviceName entries true) as (full & -> & Hfull).
  cbn [ConfigUpdates]. destruct full; [|done].
  destruct (proj1 Hfull eq_refl) as [Hint _]. discriminate.
Qed.

Lemma serviceSweptAccounts_eq (registry : Registry) (h : string) (svc : Service) :
  serviceSweptAccounts registry h svc
  = if decide (h = Hostname svc)
    then ⋃ (map (portAccounts registry (Hostname svc)) (Ports svc)) else ∅.
Proof.
  unfold serviceSweptAccounts.
  destruct (decide (Hostname svc = h)) as [<-|Hne].
  - by rewrite decide_True.
  - by rewrite decide_False.
Qed.

Lemma sweepServices_spec (registry : Registry) (svcs : list Service)
    (s s' : DiscoveryServer) (m m' : gmap string (gset string))
    (err : option Error) :
  sweepServices registry svcs s m = (s', m', err) ->
  nonEmptySets m ->
  (exists n, ConfigUpdates s' = ConfigUpdates s ++ replicate n false)
  /\ (err = None ->
      nonEmptySets m'
      /\ (forall h, accountsIn m' h
                    = ⋃ (map (serviceSweptAccounts registry h) svcs) ∪ accountsIn m h)
      /\ (forall h, serviceAccountsOf s' h
                    = match serviceAccountsOf s h with
                      | Some a => Some a
                      | None => if bool_decide (h ∈ map Hostname svcs)
                                then Some ∅ else None
                      end)).
Proof.
  revert s m. induction svcs as [|svc svcs IH]; intros s m Hsweep Hne.
  - cbn in Hsweep. injection Hsweep as <- <- <-. split.
    + exists 0%nat. cbn. by rewrite app_nil_r.
    + intros _. split; [done|]. split.
      * intros h. cbn [map]. by rewrite union_list_nil, (left_id_L ∅ (∪)).
      * intros h. by destruct (serviceAccountsOf s h).
  - cbn [sweepServices] in Hsweep.
    destruct (sweepPorts registry (Hostname svc) (Ports svc) ([], m))
      as [[entries m1]|e] eqn:Hports.
    2: { injection Hsweep as <- <- <-. split; [|discriminate].
         exists 0%nat. cbn. by rewrite app_nil_r. }
    destruct (sweepPorts_accounts _ _ _ _ _ Hports Hne) as [Hne1 Hacc1].
    cbn [snd] in Hne1, Hacc1.
    destruct (IH _ _ Hsweep Hne1) as [[n Hcu] Hok]. split.
    + exists (S n). rewrite Hcu, edsUpdate_internal_signal, <- app_assoc. done.
    + intros ->. destruct (Hok eq_refl) as (Hne' & Hacc & Hsa).
      split; [exact Hne'|]. split.
      * intros h. rewrite Hacc, Hacc1. cbn [map]. rewrite union_list_cons.
        rewrite serviceSweptAccounts_eq.
        rewrite !(assoc_L (∪)). f_equal. apply (comm_L (∪)).
      * intros h. rewrite Hsa, serviceAccountsOf_edsUpdate.
        rewrite knownAccounts_serviceAccountsOf. cbn [map].
        destruct (decide (h = Hostname svc)) as [->|Hh].
        -- destruct (serviceAccountsOf s (Hostname svc)); cbn [default]; [done|].
           rewrite bool_decide_eq_true_2; [done|by left].
        -- destruct (serviceAccountsOf s h); [done|].
           destruct (bool_decide_reflect (h ∈ map Hostname svcs)) as [Hin|Hnin].
           ++ rewrite bool_decide_eq_true_2; [done|by right].
           ++ rewrite bool_decide_eq_false_2; [done|].
              intros [?|?]%elem_of_cons; done.
Qed.

Lemma sweepRegistries_spec (registries : list Registry) (svcs : list Service)
    (s s' : DiscoveryServer) (m m' : gmap string (gset string))
    (err : option Error) :
  sweepRegistries registries svcs s m = (s', m', err) ->
  nonEmptySets m ->
  (exists n, ConfigUpdates s' = ConfigUpdates s ++ replicate n false)
  /\ (err = None ->
      nonEmptySets m'
      /\ (forall h, accountsIn m' h = sweptAccounts registries svcs h ∪ accountsIn m h)
      /\ (forall h, serviceAccountsOf s' h
                    = match serviceAccountsOf s h with
                      | Some a => Some a
                      | None => if bool_decide (registries <> []
                                                /\ h ∈ map Hostname svcs)
                                then Some ∅ else None
                      end)).
Proof.
  revert s m. induction registries as [|r registries IH]; intros s m Hsweep Hne.
  - cbn in Hsweep. injection Hsweep as <- <- <-. split.
    + exists 0%nat. cbn. by rewrite app_nil_r.
    + intros _. split; [done|]. split.
      * intros h. unfold sweptAccounts. cbn [map].
        by rewrite union_list_nil, (left_id_L ∅ (∪)).
      * intros h. destruct (serviceAccountsOf s h); [done|].
        rewrite bool_decide_eq_false_2; [done|]. by intros [? _].
  - cbn [sweepRegistries] in Hsweep.
    destruct (sweepServices r svcs s m) as [[s1 m1] [e|]] eqn:Hsvcs.
    + injection Hsweep as <- <- <-.
      destruct (sweepServices_spec _ _ _ _ _ _ _ Hsvcs Hne) as [Hcu _].
      split; [exact Hcu|discriminate].
    + destruct (sweepServices_spec _ _ _ _ _ _ _ Hsvcs Hne) as [[n1 Hcu1] Hok1].
      destruct (Hok1 eq_refl) as (Hne1 & Hacc1 & Hsa1).
      destruct (IH _ _ Hsweep Hne1) as [[n Hcu] Hok]. split.
      * exists (n1 + n)%nat. rewrite Hcu, Hcu1, <- app_assoc. f_equal.
        by rewrite replicate_add.
      * intros ->. destruct (Hok eq_refl) as (Hne' & Hacc & Hsa).
        split; [exact Hne'|]. split.
        -- intros h. rewrite Hacc, Hacc1. unfold sweptAccounts. cbn [map].
           rewrite union_list_cons.
           rewrite !(assoc_L (∪)). f_equal. apply (comm_L (∪)).
        -- intros h. rewrite Hsa, Hsa1.
           destruct (serviceAccountsOf s h); [done|].
           destruct (bool_decide_reflect (h ∈ map Hostname svcs)) as [Hin|Hnin].
           ++ rewrite bool_decide_eq_true_2; [done|]. split; [done|exact Hin].
           ++ rewrite !bool_decide_eq_false_2; [done| |]; by intros [_ ?].
Qed.

Lemma setServiceAccounts_fold (kvs : list (string * gset string))
    (s : DiscoveryServer) :
  ConfigUpdates (fold_left setServiceAccounts kvs s) = ConfigUpdates s
  /\ (NoDup (kvs.*1) ->
      forall h,
        serviceAccountsOf (fold_left setServiceAccounts kvs s) h
        = match List.find (fun kv => bool_decide (fst kv = h)) kvs with
          | Some kv => (fun _ => snd kv) <$> serviceAccountsOf s h
          | None => serviceAccountsOf s h
          end).
Proof.
  revert s. induction kvs as [|[k v] kvs IH]; intros s; [done|].
  cbn [fold_left]. destruct (IH (setServiceAccounts s (k, v))) as [Hcu Hsa].
  split; [by rewrite Hcu|].
  intros Hnd h. apply NoDup_cons in Hnd as [Hk Hnd].
  rewrite (Hsa Hnd). cbn [List.find fst snd].
  unfold serviceAccountsOf, setServiceAccounts. cbn [s_EndpointShardsByService fst snd].
  destruct (bool_decide_reflect (k = h)) as [->|Hne].
  - destruct (List.find _ kvs) as [[k1 v1]|] eqn:Hf.
    + apply find_some in Hf as [Hin Hk1]. apply bool_decide_eq_true in Hk1.
      cbn in Hk1. subst k1. exfalso. apply Hk.
      apply list_elem_of_fmap. exists (h, v1). split; [done|].
      by apply list_elem_of_In.
    + rewrite lookup_alter_eq.
      by destruct (s_EndpointShardsByService s !! h).
  - rewrite lookup_alter_ne by done. reflexivity.
Qed.

Lemma sweptAccounts_empty (registries : list Registry) (svcs : list Service)
    (h : string) :
  ~ (registries <> [] /\ h ∈ map Hostname svcs) ->
  sweptAccounts registries svcs h = ∅.
Proof.
  intros Hno. unfold sweptAccounts.
  destruct registries as [|r rs]; [done|].
  assert (Hnin : h ∉ map Hostname svcs) by (intros ?; by apply Hno).
  assert (Hz : forall r0, ⋃ map (serviceSweptAccounts r0 h) svcs = ∅).
  { intros r0. clear Hno. induction svcs as [|svc svcs IH]; [done|].
    cbn [map] in *. rewrite union_list_cons.
    rewrite IH by (intros ?; apply Hnin; by right).
    unfold serviceSweptAccounts.
    rewrite decide_False; [by rewrite (left_id_L ∅ (∪))|].
    intros Heq. apply Hnin. rewrite Heq. by left. }
  clear Hno. induction (r :: rs) as [|r0 rs0 IH0]; [done|].
  cbn [map]. rewrite union_list_cons, Hz, IH0. by rewrite (left_id_L ∅ (∪)).
Qed.

Section Reconciler.

Variable rangeMap : forall A : Type, gmap string A -> list (string * A).
Hypothesis rangeMap_Permutation :
  forall (A : Type) (m : gmap string A), rangeMap A m ≡ₚ map_to_list m.

(** X23: The reconciler never asks for a full push: whatever the registries
    answer, [updateServiceShards] adds incremental push signals only, one
    per shard it wrote. *)
Theorem updateServiceShards_no_full_push (s : DiscoveryServer) (push : PushContext)
    (registries : list Registry) :
  exists n,
    ConfigUpdates (fst (updateServiceShards rangeMap s push registries))
    = ConfigUpdates s ++ replicate n false.
Proof.
  unfold updateServiceShards.
  destruct (sweepRegistries registries (Services push) s ∅) as [[s' m'] err] eqn:Hs.
  destruct (sweepRegistries_spec _ _ _ _ _ _ _ Hs) as [[n Hcu] _].
  { intros k v Hk. by rewrite lookup_empty in Hk. }
  exists n. destruct err; cbn [fst]; [done|].
  by rewrite (proj1 (setServiceAccounts_fold _ _)).
Qed.

(** X24: When no registry query fails, the reconciler leaves every service with
    this service-account set: the non-empty accounts of all instances the
    registries returned for the service, if there is one; otherwise the set
    the service had before (the empty set for a service first seen in the
    sweep), so a set that went stale is not cleared. *)
Theorem updateServiceShards_accounts (s s' : DiscoveryServer) (push : PushContext)
    (registries : list Registry) :
  updateServiceShards rangeMap s push registries = (s', None) ->
  forall h,
    serviceAccountsOf s' h
    = if decide (sweptAccounts registries (Services push) h = ∅) then
        match serviceAccountsOf s h with
        | Some a => Some a
        | None => if bool_decide (registries <> []
                                  /\ h ∈ map Hostname (Services push))
                  then Some ∅ else None
        end
      else Some (sweptAccounts registries (Services push) h).
Proof.
  unfold updateServiceShards.
  destruct (sweepRegistries registries (Services push) s ∅) as [[s1 m1] [e|]] eqn:Hs;
    [discriminate|].
  intros [= <-] h.
  destruct (sweepRegistries_spec _ _ _ _ _ _ _ Hs) as [_ Hok].
  { intros k v Hk. by rewrite lookup_empty in Hk. }
  destruct (Hok eq_refl) as (Hne & Hacc & Hsa). specialize (Hacc h).
  unfold accountsIn at 2 in Hacc. rewrite lookup_empty in Hacc. cbn [default] in Hacc.
  rewrite (right_id_L ∅ (∪)) in Hacc.
  rewrite (proj2 (setServiceAccounts_fold _ _)).
  2: { rewrite (rangeMap_Permutation _ m1). apply NoDup_fst_map_to_list. }
  assert (Hfind : List.find (fun kv => bool_decide (fst kv = h)) (rangeMap _ m1)
                  = (fun v => (h, v)) <$> m1 !! h).
  { apply find_rangeMap. exact rangeMap_Permutation. }
  rewrite Hfind. unfold accountsIn in Hacc.
  destruct (m1 !! h) as [v|] eqn:Hm; simpl in Hacc |- *.
  - subst v. rewrite decide_False by (by apply (Hne h _ Hm)).
    rewrite Hsa.
    destruct (decide (registries <> [] /\ h ∈ map Hostname (Services push)))
      as [Hin|Hno].
    + destruct (serviceAccountsOf s h); simpl; [done|].
      by rewrite bool_decide_eq_true_2.
    + exfalso. apply (Hne h _ Hm). by apply sweptAccounts_empty.
  - rewrite <- Hacc. rewrite decide_True by done. apply Hsa.
Qed.

End Reconciler.

(** ** The further properties of the builders at concrete inputs *)


Lemma updateClusterInc_metrics_witness :
  let w' :=
    snd (fst (fst
      (updateClusterInc sampleParseSubsetKey sampleSubsetToLabels sampleAZLabel
         sampleGetAZ sampleValidate sampleGetAddress failingRegistry sampleRange
         sampleServer emptyWorld samplePush "outbound|80||svc.ns"
         (freshCluster 100) 200))) in
  edsInstances w'
  = <["outbound|80||svc.ns" :=
        Z.of_nat (selectedCount sampleRange "http" ∅ sampleShards)]> ∅
  /\ registryQueries w' = [].
Proof.
  cbn zeta.
  destruct (updateClusterInc_metrics sampleParseSubsetKey sampleSubsetToLabels
              sampleAZLabel sampleGetAZ sampleValidate sampleGetAddress
              failingRegistry sampleRange
              sampleServer emptyWorld samplePush "outbound|80||svc.ns"
              (freshCluster 100) 200 TrafficDirectionOutbound "" "svc.ns" 80
              [ {| Port_Name := "http"; Port_Port := 80;
                   Port_Protocol := ProtocolOther "HTTP" |} ]
              {| Port_Name := "http"; Port_Port := 80;
                 Port_Protocol := ProtocolOther "HTTP" |}
              sampleShards eq_refl eq_refl eq_refl eq_refl)
    as (H1 & _ & _ & H4).
  split; [exact H1|exact H4].
Defined.

Lemma updateCluster_assignment_witness :
  exists w' c' locEps,
    updateCluster sampleParseSubsetKey sampleSubsetToLabels sampleGetAZ
      sampleValidate sampleGetAddress sampleRegistry sampleRange
      emptyWorld samplePush "outbound|80||svc.ns" (freshCluster 100) 200
    = (w', c', None)
    /\ LoadAssignment c'
       = Some {| ClusterName := "outbound|80||svc.ns"; Endpoints := locEps |}
    /\ NoDup (map LLE_Locality locEps)
    /\ totalXDSInternalErrors w' = 0.
Proof.
  destruct (updateCluster_assignment sampleParseSubsetKey sampleSubsetToLabels
              sampleGetAZ sampleValidate sampleGetAddress sampleRegistry
              sampleRange sampleRange_Permutation
              emptyWorld samplePush "outbound|80||svc.ns" (freshCluster 100) 200
              TrafficDirectionOutbound "" "svc.ns" 80
              [ sampleInstance "10.0.0.1" "us-east-1a";
                sampleInstance "10.0.0.2" "us-east-1b" ]
              eq_refl eq_refl eq_refl)
    as (w' & c' & locEps & H1 & H2 & _ & _ & H5 & H6 & _).
  { vm_compute. reflexivity. }
  exists w', c', locEps. repeat split; [exact H1|exact H2|exact H5|].
  rewrite H6. vm_compute. reflexivity.
Defined.

Lemma SvcUpdate_port_list_witness :
  let ports : gmap string Z := {[ "http" := 80; "grpc" := 9090 ]} in
  let pc' := SvcUpdate sampleRange pushWithoutPorts "" "svc.ns" ports ∅ in
  exists pl,
    ServicePort2Name pc' !! "svc.ns" = Some pl
    /\ match GetByPort pl 9090 with
       | Some p => Port_Port p = 9090 /\ ports !! Port_Name p = Some 9090
       | None => forall name, ports !! name <> Some 9090
       end.
Proof.
  intros ports pc'.
  destruct (proj2 (SvcUpdate_port_list sampleRange sampleRange_Permutation
                     pushWithoutPorts "" "svc.ns" ports ∅) eq_refl)
    as (_ & _ & pl & Hpl & _ & Hget).
  exists pl. split; [exact Hpl|apply Hget].
Defined.

(** A registry with one instance under service account [spiffe-a]. *)
Lemma updateServiceShards_accounts_witness :
  let registry :=
    {| ClusterID := "r1";
       Registry_InstancesByPort := fun _ _ _ =>
         Ok [ {| SI_Endpoint := {| NE_Family := AddressFamilyTCP;
                                   NE_Address := "10.0.0.1"; NE_Port := 80;
                                   NE_UID := ""; NE_Network := "" |};
                 SI_Labels := ∅; SI_ServiceAccount := "spiffe-a" |} ] |} in
  let push :=
    {| ServicePort2Name := ∅;
       Services := [ {| Hostname := "svc.ns";
                        Ports := [ {| Port_Name := "http"; Port_Port := 80;
                                      Port_Protocol := ProtocolOther "HTTP" |} ] |} ] |} in
  serviceAccountsOf
    (fst (updateServiceShards sampleRange emptyServer push [registry])) "svc.ns"
  = if decide (sweptAccounts [registry] (Services push) "svc.ns" = ∅) then Some ∅
    else Some (sweptAccounts [registry] (Services push) "svc.ns").
Proof.
  intros registry push.
  rewrite (updateServiceShards_accounts sampleRange sampleRange_Permutation
             emptyServer
             (fst (updateServiceShards sampleRange emptyServer push [registry]))
             push [registry]).
  - destruct (decide (sweptAccounts [registry] (Services push) "svc.ns" = ∅));
      [|reflexivity].
    vm_compute. reflexivity.
  - vm_compute. reflexivity.
Defined.

(** ** Conversion of a shard entry *)

(** X6: [buildEnvoyLbEndpoint] gives a socket address to the TCP family and a
    pipe to the Unix family, and decides on the metadata by the UID alone:
    with an empty UID there is none; with a non-empty UID the struct under
    ["istio"] holds the fields [uid] and [network], whatever the network,
    and no other field. *)
Theorem buildEnvoyLbEndpoint_result (UID : string) (family : AddressFamily)
    (address : string) (port : Z) (network : string) :
  let ep := buildEnvoyLbEndpoint UID family address port network in
  (family = AddressFamilyTCP -> Endpoint_Address ep = Address_SocketAddress address port)
  /\ (family = AddressFamilyUnix -> Endpoint_Address ep = Address_Pipe address)
  /\ (Endpoint_Metadata ep = None <-> UID = "")
  /\ (forall k, istioField ep k
                = if bool_decide (UID = "") then None
                  else if bool_decide (k = "uid") then Some UID
                       else if bool_decide (k = "network") then Some network
                            else None).
Proof.
  cbn zeta. unfold buildEnvoyLbEndpoint, istioField. cbn [Endpoint_Address Endpoint_Metadata].
  split; [by intros ->|]. split; [by intros ->|].
  destruct (bool_decide_reflect (UID <> "")) as [Hu|Hu].
  - rewrite (bool_decide_eq_false_2 (UID = "")) by done. split; [done|].
    intros k. rewrite lookup_singleton_eq, lookup_insert.
    destruct (decide ("uid" = k)) as [<-|Hk].
    + by rewrite bool_decide_eq_true_2.
    + rewrite (bool_decide_eq_false_2 (k = "uid")) by done.
      rewrite lookup_singleton.
      destruct (decide ("network" = k)) as [<-|Hk'].
      * by rewrite bool_decide_eq_true_2.
      * by rewrite bool_decide_eq_false_2.
  - assert (HU : UID = "") by (destruct (decide (UID = "")); [done|by destruct Hu]).
    rewrite (bool_decide_eq_true_2 (UID = "")) by done. done.
Qed.

Lemma buildEnvoyLbEndpoint_result_witness :
  Endpoint_Address (buildEnvoyLbEndpoint "uid1" AddressFamilyTCP "10.0.0.1" 80 "")
  = Address_SocketAddress "10.0.0.1" 80
  /\ istioField (buildEnvoyLbEndpoint "uid1" AddressFamilyTCP "10.0.0.1" 80 "") "uid"
     = Some "uid1".
Proof.
  destruct (buildEnvoyLbEndpoint_result "uid1" AddressFamilyTCP "10.0.0.1" 80 "")
    as (Htcp & _ & _ & Hfield).
  split; [exact (Htcp eq_refl)|]. rewrite Hfield. reflexivity.
Defined.

Lemma edsIncremental_clusters_witness :
  let c := clusterWithClients {[ "n1" := 1%nat ]} in
  let clusters' :=
    snd (edsIncremental sampleParseSubsetKey sampleSubsetToLabels sampleAZLabel
           sampleGetAZ sampleValidate sampleGetAddress sampleRegistry sampleRange
           sampleServer emptyWorld {[ "outbound|80||svc.ns" := c ]} samplePush
           {[ "svc.ns" ]} (fun _ => 200)) in
  exists c', clusters' !! "outbound|80||svc.ns" = Some c' /\ keepsEntry 200 c c'.
Proof.
  exact (edsIncremental_clusters sampleParseSubsetKey sampleSubsetToLabels
           sampleAZLabel sampleGetAZ sampleValidate sampleGetAddress sampleRegistry
           sampleRange sampleRange_Permutation
           sampleServer emptyWorld
           {[ "outbound|80||svc.ns" := clusterWithClients {[ "n1" := 1%nat ]} ]}
           samplePush {[ "svc.ns" ]} (fun _ => 200) "outbound|80||svc.ns").
Defined.


(** ** Connection identifiers *)

Lemma dashFree_app_dash (a b : string) : dashFree (a +:+ "-" +:+ b) = false.
Proof.
  induction a as [|c a IH]; [reflexivity|].
  change (dashFree (String c a +:+ "-" +:+ b))
    with (negb (Ascii.eqb c "-") && dashFree (a +:+ "-" +:+ b)).
  rewrite IH. apply andb_false_r.
Qed.

Lemma dash_split (n1 n2 d1 d2 : string) :
  dashFree d1 = true -> dashFree d2 = true ->
  n1 +:+ "-" +:+ d1 = n2 +:+ "-" +:+ d2 -> n1 = n2 /\ d1 = d2.
Proof.
  intros H1 H2. revert n2.
  induction n1 as [|c n1 IH]; intros [|c' n2] Heq.
  - by injection Heq.
  - injection Heq as _ Heq. change ("" +:+ d1) with d1 in Heq.
    by rewrite Heq, dashFree_app_dash in H1.
  - injection Heq as _ Heq. change ("" +:+ d2) with d2 in Heq.
    by rewrite <- Heq, dashFree_app_dash in H2.
  - injection Heq as -> Heq. by destruct (IH _ Heq) as [-> ->].
Qed.

Lemma pretty_N_char_dashFree (x : N) (s : string) :
  dashFree s = true -> dashFree (String (pretty_N_char x) s) = true.
Proof.
  intros Hs. unfold pretty_N_char. by repeat case_match; cbn; rewrite Hs.
Qed.

Lemma pretty_N_go_dashFree (x : N) (s : string) :
  dashFree s = true -> dashFree (pretty_N_go x s) = true.
Proof.
  revert s. induction (N.lt_wf_0 x) as [x _ IH]; intros s Hs.
  assert (x = 0 \/ 0 < x)%N as [->|Hx] by lia.
  - by rewrite pretty_N_go_0.
  - rewrite pretty_N_go_step by done. apply IH.
    + by apply N.div_lt.
    + by apply pretty_N_char_dashFree.
Qed.

Lemma pretty_Z_dashFree (z : Z) : 0 <= z -> dashFree (pretty z) = true.
Proof.
  intros Hz. destruct z as [|p|p]; [reflexivity| |lia].
  change (pretty (Z.pos p)) with (pretty (N.pos p)).
  unfold pretty, pretty_N. destruct (decide _); [reflexivity|].
  by apply pretty_N_go_dashFree.
Qed.

Lemma int64_wrap_small (z : Z) : - 2 ^ 63 <= z < 2 ^ 63 -> Int64.wrap z = z.
Proof. intros Hz. unfold Int64.wrap. rewrite Z.mod_small; lia. Qed.

Lemma connectionIDs_elem (nodes : list string) (c : Z) (id : string) :
  0 <= c -> c + Z.of_nat (length nodes) < 2 ^ 63 ->
  id ∈ connectionIDs c nodes ->
  exists node k, id = node +:+ "-" +:+ pretty k /\ c < k <= c + Z.of_nat (length nodes).
Proof.
  revert c. induction nodes as [|node rest IH]; intros c Hc Hlen Hin.
  - cbn in Hin. by apply elem_of_nil in Hin.
  - cbn [connectionIDs connectionID length] in Hin, Hlen |- *.
    rewrite int64_wrap_small in Hin by lia.
    apply elem_of_cons in Hin as [->|Hin].
    + exists node, (c + 1). split; [done|lia].
    + apply IH in Hin as (n & k & -> & Hk); [|lia..].
      exists n, k. split; [done|lia].
Qed.

(** X29: connection identifiers do not collide.  Successive calls of
    [connectionID], starting from a counter that is not negative (the package
    initialises it to 0) and staying below [2^63], return pairwise different
    identifiers, whatever the node names are, including names that themselves
    contain dashes and digits. *)
Theorem connectionID_distinct (nodes : list string) (c : Z) :
  0 <= c -> c + Z.of_nat (length nodes) < 2 ^ 63 ->
  NoDup (connectionIDs c nodes).
Proof.
  revert c. induction nodes as [|node rest IH]; intros c Hc Hlen.
  - constructor.
  - cbn [connectionIDs connectionID length] in *.
    rewrite int64_wrap_small by lia. constructor.
    + intros Hin. apply connectionIDs_elem in Hin as (n & k & Heq & Hk); [|lia..].
      apply dash_split in Heq as [_ Heq]; [|apply pretty_Z_dashFree; lia..].
      apply (inj pretty) in Heq. lia.
    + apply IH; lia.
Qed.

Lemma connectionID_distinct_witness :
  NoDup (connectionIDs 0 ["a"; "a-1"; "a"]%string).
Proof. apply connectionID_distinct; cbn; lia. Defined.
